(** * PairwiseRepl: session synchronisation and snapshot versioning

    A shallow embedding of the parts of the Pairwise server and client that
    carry state-machine and consistency obligations:

    - the snapshot capture route [POST /api/sessions/:id/snapshots]
      (server routes), which computes the change metadata of a snapshot;
    - the WebSocket router of the same file: the [activeConnections]
      registry, the per-connection message and close handlers and
      [broadcast];
    - the client's [handleRestoreSnapshot] / [handleBackToLive] pair of
      [client/src/pages/session.tsx].

    Definitions come first, grouped in one module per source component;
    the lemmas and theorems follow. *)

From Stdlib Require Import ZArith String Ascii List Permutation Lia.
From stdpp Require Import base option list gmap strings pretty.

Local Open Scope Z_scope.
Local Open Scope string_scope.

#[local] Set Warnings "-register-all".

(* ===================================================================== *)
(** ** JavaScript values and the few primitives the sources rely on       *)
(* ===================================================================== *)

Module Js.

(** JSON-shaped values. [Obj] lists the own enumerable properties in the
    order [Object.keys] / [Object.entries] enumerate them (integer-like
    keys first, then the others in insertion order), each key once.
    Strings are byte strings; splitting on an ASCII separator does not
    depend on the encoding.  Numbers are
    kept as integers: the sources only test them for truthiness and
    [typeof].  [Native] stands for what a property lookup finds on a
    built-in prototype (a method, or the prototype object itself): it is
    truthy and its [typeof] is never ['string']. *)
Inductive value : Type :=
| Undefined
| Null
| Bool (b : bool)
| Num (n : Z)
| Str (s : string)
| Arr (items : list value)
| Obj (props : list (string * value))
| Native (name : string).

(** [ToBoolean]. *)
Definition truthy (v : value) : bool :=
  match v with
  | Undefined | Null => false
  | Bool b => b
  | Num n => negb (Z.eqb n 0)
  | Str s => negb (String.eqb s "")
  | Arr _ | Obj _ | Native _ => true
  end.

(** [a || b]. *)
Definition or_else (a b : value) : value := if truthy a then a else b.

(** What the sources throw or let escape; every one of them is an
    [instanceof Error], so [message] is what a [catch] reports. *)
Inductive thrown : Type :=
| TypeError (message : string)
| Error (message : string).

Definition message_of (e : thrown) : string :=
  match e with TypeError m | Error m => m end.

Inductive result (A : Type) : Type :=
| Ok (a : A)
| Throw (e : thrown).
Arguments Ok {A} a.
Arguments Throw {A} e.

#[global] Instance result_ret : MRet result := fun A a => Ok a.
#[global] Instance result_bind : MBind result := fun A B f r =>
  match r with Ok a => f a | Throw e => Throw e end.

(** A [for ... of] loop with an accumulator whose body may throw. *)
Fixpoint for_of {A B : Type} (body : B -> A -> result B) (acc : B) (l : list A)
  : result B :=
  match l with
  | [] => Ok acc
  | x :: l' => acc' ← body acc x; for_of body acc' l'
  end.

(** [s.split(sep)] for a one-character separator: the segment before the
    first separator, and the segments after it. *)
Fixpoint split_from (sep : ascii) (s : string) : string * list string :=
  match s with
  | EmptyString => (EmptyString, [])
  | String c rest =>
      let '(seg, segs) := split_from sep rest in
      if Ascii.eqb c sep then (EmptyString, seg :: segs)
      else (String c seg, segs)
  end.

Definition split (sep : ascii) (s : string) : list string :=
  let '(seg, segs) := split_from sep s in seg :: segs.

(** [xs.pop()] on a freshly built array: its last element. *)
Definition pop (xs : list string) : value :=
  match last xs with Some x => Str x | None => Undefined end.

(** Own-property lookup in an ordered property list. *)
Fixpoint own_property (props : list (string * value)) (k : string) : option value :=
  match props with
  | [] => None
  | (k', v) :: props' => if String.eqb k' k then Some v else own_property props' k
  end.

(** [v.k] for a property name [k] written in the source ([diff],
    [files], [path], [content], [timestamp]): none of them is defined on
    a built-in prototype, so only own properties answer; reading a
    property of [null] or [undefined] throws. *)
Definition get_field (v : value) (k : string) : result value :=
  match v with
  | Undefined =>
      Throw (TypeError ("Cannot read properties of undefined (reading '" ++ k ++ "')"))
  | Null =>
      Throw (TypeError ("Cannot read properties of null (reading '" ++ k ++ "')"))
  | Obj props => Ok (default Undefined (own_property props k))
  | _ => Ok Undefined
  end.

(** [v?.k]. *)
Definition get_field_opt (v : value) (k : string) : value :=
  match v with
  | Obj props => default Undefined (own_property props k)
  | _ => Undefined
  end.

(** [ToPrimitive] throws on [v], a value parsed from JSON.  No such value
    is callable.  For an object the inherited [valueOf] returns the
    object itself, and an own [toString] property hides the inherited
    method without being one, so the conversion finds no method that
    gives a primitive and throws; without an own [toString] the
    inherited one gives ["[object Object]"].  An array is converted by
    [join], which converts every element but [null] to a string in the
    same way. *)
Fixpoint to_primitive_throws (v : value) : bool :=
  match v with
  | Obj props =>
      match own_property props "toString" with Some _ => true | None => false end
  | Arr items => existsb to_primitive_throws items
  | _ => false
  end.

(** [new Date(v).toLocaleString()] for a value [v] parsed from JSON: the
    constructor converts an object or array to a primitive first; any
    primitive gives a date, valid or not, and formatting a date does not
    throw.  The date is kept as the value it was made from. *)
Definition new_Date_toLocaleString (v : value) : result value :=
  if to_primitive_throws v
  then Throw (TypeError "Cannot convert object to primitive value")
  else Ok v.

(** The keys of an array: ["0"], ["1"], ... *)
Definition index_keys (n : nat) : list string := map (fun i : nat => pretty i) (seq 0 n).

(** String-keyed members every object inherits from [Object.prototype]. *)
Definition Object_prototype_names : list string :=
  [ "constructor"; "hasOwnProperty"; "isPrototypeOf"; "propertyIsEnumerable";
    "toLocaleString"; "toString"; "valueOf"; "__proto__";
    "__defineGetter__"; "__defineSetter__"; "__lookupGetter__"; "__lookupSetter__" ].

(** String-keyed members of [Array.prototype] ([length] is an own
    property of each array and is handled apart). *)
Definition Array_prototype_names : list string :=
  [ "at"; "concat"; "copyWithin"; "entries"; "every"; "fill"; "filter"; "find";
    "findIndex"; "findLast"; "findLastIndex"; "flat"; "flatMap"; "forEach";
    "includes"; "indexOf"; "join"; "keys"; "lastIndexOf"; "map"; "pop"; "push";
    "reduce"; "reduceRight"; "reverse"; "shift"; "slice"; "some"; "sort";
    "splice"; "toReversed"; "toSorted"; "toSpliced"; "unshift"; "values"; "with" ].

Definition mem_string (k : string) (names : list string) : bool :=
  existsb (String.eqb k) names.

End Js.

(* ===================================================================== *)
(** ** Snapshot Engine: [POST /api/sessions/:id/snapshots]                *)
(* ===================================================================== *)

Module SnapshotEngine.
Import Js.

(** The two shapes of [diff.files] the clients send and the database
    holds: the current path -> content object and the legacy array of
    [{path, content}] objects.  A missing or falsy [files] is [None]; a
    truthy primitive in that place is not modelled. *)
Inductive files_value : Type :=
| FilesRecord (props : list (string * value))
| FilesArray (items : list value).

(** [x || {}]. *)
Definition or_empty (x : option files_value) : files_value :=
  match x with Some f => f | None => FilesRecord [] end.

Definition Object_entries (f : files_value) : list (string * value) :=
  match f with
  | FilesRecord props => props
  | FilesArray items => zip (index_keys (length items)) items
  end.

Definition Object_keys (f : files_value) : list string := (Object_entries f).*1.
Definition Object_values (f : files_value) : list value := (Object_entries f).*2.

(** [f[k]] for a computed key: own properties first, then the prototype
    chain. *)
Definition member (f : files_value) (k : string) : value :=
  match own_property (Object_entries f) k with
  | Some v => v
  | None =>
      match f with
      | FilesRecord _ =>
          if mem_string k Object_prototype_names then Native k else Undefined
      | FilesArray items =>
          if String.eqb k "length" then Num (Z.of_nat (length items))
          else if mem_string k (Array_prototype_names ++ Object_prototype_names)
               then Native k else Undefined
      end
  end.

(** [s.split('\n').length]. *)
Definition line_count (s : string) : Z := Z.of_nat (length (split "010"%char s)).

(** [typeof c === 'string' ? c.split('\n').length : 0]. *)
Definition lines_or_zero (c : value) : Z :=
  match c with Str s => line_count s | _ => 0 end.

Record metadata : Type := Metadata {
  linesChanged : Z;
  filesModified : list string;
}.

Record normalizedDiff : Type := NormalizedDiff {
  files : files_value;
  meta : metadata;
}.

(** Body of the first loop, "compare current files with previous
    snapshot": [(content as string).split] is called without a [typeof]
    guard, so a content that is not a string throws. *)
Definition compare_current (prevFiles : files_value) (linesChanged : Z)
    (entry : string * value) : result Z :=
  let '(path, content) := entry in
  match content with
  | Str s =>
      let currentLines := line_count s in
      let prevContent := or_else (member prevFiles path) (Str "") in
      let prevLines := lines_or_zero prevContent in
      Ok (linesChanged + Z.abs (currentLines - prevLines))
  | Undefined =>
      Throw (TypeError "Cannot read properties of undefined (reading 'split')")
  | Null =>
      Throw (TypeError "Cannot read properties of null (reading 'split')")
  | _ => Throw (TypeError "content.split is not a function")
  end.

(** Body of the second loop, "add lines from files that were removed". *)
Definition add_removed (filesData : files_value) (linesChanged : Z)
    (entry : string * value) : Z :=
  let '(path, content) := entry in
  if negb (truthy (member filesData path))
  then linesChanged + lines_or_zero content
  else linesChanged.

(** [previousSnapshots] is the result of the [limit(1)] query, each row
    given by its [diff?.files]. *)
Definition computeMetadata (filesData : files_value)
    (previousSnapshots : list (option files_value)) : result metadata :=
  let filesModified := Object_keys filesData in
  match previousSnapshots with
  | prevDiff :: _ =>
      let prevFiles := or_empty prevDiff in
      linesChanged ← for_of (compare_current prevFiles) 0 (Object_entries filesData);
      let linesChanged :=
        fold_left (add_removed filesData) (Object_entries prevFiles) linesChanged in
      Ok (Metadata linesChanged filesModified)
  | [] =>
      let linesChanged :=
        fold_left (fun sum content => sum + lines_or_zero content)
                  (Object_values filesData) 0 in
      Ok (Metadata linesChanged filesModified)
  end.

(** The route from the result of the [previousSnapshots] query up to the
    point where the row is handed to validation and storage: [bodyFiles]
    is [req.body.diff?.files]. *)
Definition capture (bodyFiles : option files_value)
    (previousSnapshots : list (option files_value)) : result normalizedDiff :=
  let filesData := or_empty bodyFiles in
  metadata ← computeMetadata filesData previousSnapshots;
  Ok (NormalizedDiff filesData metadata).

(** HTTP status of the response.  [persist] is the rest of the [try]
    block, [insertSnapshotSchema.parse] followed by
    [storage.createSnapshot]: their code (the generated schema, the
    storage layer and the database) is not part of the sources, so the
    outcome is taken as given, the stored row or what they throw.  The
    response is 201 with the stored row when nothing has thrown, and
    400 from the [catch] otherwise. *)
Definition status_of {A B} (r : result A) (persist : A -> result B) : nat :=
  match r with
  | Ok normalizedDiff =>
      match persist normalizedDiff with
      | Ok _ => 201%nat
      | Throw _ => 400%nat
      end
  | Throw _ => 400%nat
  end.

(** *** The reference algorithm of the specification

    A File Set is a mapping from path to content with unique paths; it
    is given here by its list of entries. *)
Definition FileSet : Type := list (string * string).

Definition paths (fs : FileSet) : list string := fs.*1.

Definition lookup_path (fs : FileSet) (p : string) : option string :=
  snd <$> find (fun e => String.eqb (fst e) p) fs.

(** Steps 1 and 2: paths of the new set, then paths only in the previous
    set. *)
Definition spec_new_term (prev : FileSet) (e : string * string) : Z :=
  match lookup_path prev (fst e) with
  | Some old => Z.abs (line_count (snd e) - line_count old)
  | None => line_count (snd e)
  end.

Definition spec_removed_term (new : FileSet) (e : string * string) : Z :=
  match lookup_path new (fst e) with
  | Some _ => 0
  | None => line_count (snd e)
  end.

Definition sumZ (l : list Z) : Z := fold_right Z.add 0 l.

Definition spec_linesChanged (new : FileSet) (prev : option FileSet) : Z :=
  match prev with
  | Some prev =>
      sumZ (map (spec_new_term prev) new) + sumZ (map (spec_removed_term new) prev)
  | None => sumZ (map (fun e => line_count (snd e)) new)
  end.

Definition spec_metadata (new : FileSet) (prev : option FileSet) : metadata :=
  Metadata (spec_linesChanged new prev) (paths new).

(** A File Set as the JSON object the current client sends. *)
Definition as_record (fs : FileSet) : files_value :=
  FilesRecord (map (fun e => (fst e, Str (snd e))) fs).

(** What the first loop adds for one file of the new set: the previous
    content of a path the previous set lacks is taken to be [""], whose
    line count is 1. *)
Definition code_new_term (prev : FileSet) (e : string * string) : Z :=
  Z.abs (line_count (snd e) - line_count (default "" (lookup_path prev (fst e)))).

(** A path that names no member of [Object.prototype]. *)
Definition plain_path (p : string) : Prop := mem_string p Object_prototype_names = false.

Definition is_object (v : value) : Prop :=
  match v with Obj _ => True | _ => False end.

(** The line separator. *)
Definition nl : string := String "010"%char EmptyString.

End SnapshotEngine.

(* ===================================================================== *)
(** ** Connection Registry and Message Router: the [/ws] server            *)
(* ===================================================================== *)

Module Router.
Import Js.

(** A [WebSocket] object is known by its identity. *)
Definition WebSocket : Type := nat.
#[global] Bind Scope nat_scope with WebSocket.

Inductive readyState_t : Type := CONNECTING | OPEN | CLOSING | CLOSED.

(** [Set<WebSocket>]: members in insertion order, each at most once. *)
Definition Set_add (ws : WebSocket) (s : list WebSocket) : list WebSocket :=
  if decide (ws ∈ s) then s else s ++ [ws].

Definition Set_delete (ws : WebSocket) (s : list WebSocket) : list WebSocket :=
  filter (fun client => client ≠ ws) s.

(** Messages the server puts on the wire (the argument of
    [JSON.stringify]), by their [type]. *)
Inductive outbound : Type :=
| participant_joined (userId : option string) (timestamp : Z)
| editor_change (userId : option string) (code filePath : value) (timestamp : Z)
| cursor_move (userId : option string) (position filePath : value) (timestamp : Z)
| participant_left (userId : option string) (timestamp : Z)
| snapshot_created (snapshotId sessionId : string) (timestamp author description : value)
                   (metadata : SnapshotEngine.metadata).

(** Parsed inbound messages by their [type]; [sessionId] and [userId]
    of [join-session] are strings or absent, as the handler's variables
    are typed.  The [sessionId] field of [editor-change] and
    [cursor-move] is not read by the handler. *)
Inductive inbound : Type :=
| join_session (sessionId userId : option string)
| editor_change_msg (code filePath : value)
| cursor_move_msg (position filePath : value)
| leave_session
| unknown_type.

(** The variables each connection's handlers close over, and the
    socket's [readyState]. *)
Record socket : Type := Socket {
  currentSessionId : option string;
  userId : option string;
  readyState : readyState_t;
}.

(** [wire] records every [client.send], oldest first. *)
Record server : Type := Server {
  activeConnections : gmap string (list WebSocket);
  sockets : gmap WebSocket socket;
  wire : list (WebSocket * outbound);
}.

Definition init : server := Server ∅ ∅ [].

(** The string behind a truthy [string | null] variable. *)
Definition truthy_key (x : option string) : option string :=
  match x with
  | Some s => if String.eqb s "" then None else Some s
  | None => None
  end.

Definition vars (st : server) (ws : WebSocket) : option string * option string :=
  match sockets st !! ws with
  | Some sk => (currentSessionId sk, userId sk)
  | None => (None, None)
  end.

Definition set_vars (ws : WebSocket) (cur uid : option string) (st : server) : server :=
  Server (activeConnections st)
         (alter (fun sk => Socket cur uid (readyState sk)) ws (sockets st))
         (wire st).

Definition set_readyState (ws : WebSocket) (r : readyState_t) (st : server) : server :=
  Server (activeConnections st)
         (alter (fun sk => Socket (currentSessionId sk) (userId sk) r) ws (sockets st))
         (wire st).

Definition with_connections (m : gmap string (list WebSocket)) (st : server) : server :=
  Server m (sockets st) (wire st).

Definition is_open (st : server) (client : WebSocket) : bool :=
  match sockets st !! client with
  | Some sk => match readyState sk with OPEN => true | _ => false end
  | None => false
  end.


Definition recipients (st : server) (connections : list WebSocket)
    (exclude : option WebSocket) : list WebSocket :=
  filter (fun client => Some client ≠ exclude ∧ is_open st client = true) connections.

Definition broadcast (sessionId : string) (message : outbound)
    (exclude : option WebSocket) (st : server) : server :=
  match activeConnections st !! sessionId with
  | None => st
  | Some connections =>
      Server (activeConnections st) (sockets st)
             (wire st ++ map (fun client => (client, message))
                             (recipients st connections exclude))
  end.

(** [ws.on('message')].  [data = None] is a payload on which
    [JSON.parse] or [message.type] throws: caught and logged.  [now] is
    the reading of [Date.now()]. *)
Definition on_message (ws : WebSocket) (data : option inbound) (now : Z)
    (st : server) : server :=
  match data with
  | None => st
  | Some message =>
      let '(currentSessionId, userId) := vars st ws in
      match message with
      | join_session sessionId messageUserId =>
          let currentSessionId := sessionId in
          let userId := Some (default "anonymous" (truthy_key messageUserId)) in
          let st := set_vars ws currentSessionId userId st in
          let st :=
            match truthy_key currentSessionId with
            | Some sid =>
                match activeConnections st !! sid with
                | None => with_connections (<[sid := []]> (activeConnections st)) st
                | Some _ => st
                end
            | None => st
            end in
          match truthy_key currentSessionId with
          | Some sid =>
              let st := with_connections (alter (Set_add ws) sid (activeConnections st)) st in
              broadcast sid (participant_joined userId now) (Some ws) st
          | None => st
          end
      | editor_change_msg code filePath =>
          match truthy_key currentSessionId with
          | Some sid => broadcast sid (editor_change userId code filePath now) (Some ws) st
          | None => st
          end
      | cursor_move_msg position filePath =>
          match truthy_key currentSessionId with
          | Some sid => broadcast sid (cursor_move userId position filePath now) (Some ws) st
          | None => st
          end
      | leave_session =>
          let st :=
            match truthy_key currentSessionId with
            | Some sid =>
                let st := broadcast sid (participant_left userId now) (Some ws) st in
                match activeConnections st !! sid with
                | Some connections =>
                    let connections := Set_delete ws connections in
                    if decide (length connections = 0%nat)
                    then with_connections (delete sid (activeConnections st)) st
                    else with_connections (<[sid := connections]> (activeConnections st)) st
                | None => st
                end
            | None => st
            end in
          set_vars ws None None st
      | unknown_type => st
      end
  end.

(** [ws.on('close')]. *)
Definition on_close (ws : WebSocket) (now : Z) (st : server) : server :=
  let '(currentSessionId, userId) := vars st ws in
  match truthy_key currentSessionId, truthy_key userId with
  | Some sid, Some _ =>
      let st :=
        match activeConnections st !! sid with
        | Some connections =>
            let connections := Set_delete ws connections in
            if decide (length connections = 0%nat)
            then with_connections (delete sid (activeConnections st)) st
            else with_connections (<[sid := connections]> (activeConnections st)) st
        | None => st
        end in
      broadcast sid (participant_left userId now) (Some ws) st
  | _, _ => st
  end.

(** What reaches the handlers.  [Connection] is [wss.on('connection')]
    for a new socket; [Closing] is the transport starting its closing
    handshake; [SnapshotStored] is the capture route announcing a stored
    snapshot.  The transport delivers messages only on an open socket
    and emits [close] once. *)
Inductive event : Type :=
| Connection (ws : WebSocket)
| Message (ws : WebSocket) (data : option inbound) (now : Z)
| Closing (ws : WebSocket)
| Close (ws : WebSocket) (now : Z)
| SnapshotStored (sessionId : string) (message : outbound).

Definition step (st : server) (ev : event) : server :=
  match ev with
  | Connection ws =>
      match sockets st !! ws with
      | None => Server (activeConnections st)
                       (<[ws := Socket None None OPEN]> (sockets st)) (wire st)
      | Some _ => st
      end
  | Message ws data now =>
      if is_open st ws then on_message ws data now st else st
  | Closing ws =>
      if is_open st ws then set_readyState ws CLOSING st else st
  | Close ws now =>
      match sockets st !! ws with
      | Some sk =>
          match readyState sk with
          | CLOSED => st
          | _ => on_close ws now (set_readyState ws CLOSED st)
          end
      | None => st
      end
  | SnapshotStored sessionId message =>
      match activeConnections st !! sessionId with
      | Some _ => broadcast sessionId message None st
      | None => st
      end
  end.

Definition run (evs : list event) (st : server) : server := fold_left step evs st.

(** The group of a session, empty when the registry has no entry. *)
Definition group (st : server) (sessionId : string) : list WebSocket :=
  default [] (activeConnections st !! sessionId).

(** The messages a peer has been sent, oldest first. *)
Definition inbox (st : server) (client : WebSocket) : list outbound :=
  (filter (fun d => d.1 = client) (wire st)).*2.

(** The registry after a handler has added [ws] to the group of [sid],
    and after it has removed [ws] from it. *)
Definition joined (sid : string) (ws : WebSocket)
    (m : gmap string (list WebSocket)) : gmap string (list WebSocket) :=
  <[sid := Set_add ws (default [] (m !! sid))]> m.

Definition released (sid : string) (ws : WebSocket)
    (m : gmap string (list WebSocket)) : gmap string (list WebSocket) :=
  match m !! sid with
  | Some connections =>
      if decide (length (Set_delete ws connections) = 0%nat)
      then delete sid m
      else <[sid := Set_delete ws connections]> m
  | None => m
  end.

(** "A session key exists in the registry iff its group is non-empty." *)
Definition registry_invariant (st : server) : Prop :=
  forall sid, is_Some (activeConnections st !! sid) <-> group st sid <> [].

(** Groups are sets. *)
Definition groups_are_sets (st : server) : Prop :=
  forall sid connections, activeConnections st !! sid = Some connections -> NoDup connections.

(** A connection with a current session has a user id. *)
Definition vars_invariant (st : server) : Prop :=
  forall ws sk, sockets st !! ws = Some sk ->
    is_Some (truthy_key (currentSessionId sk)) -> is_Some (truthy_key (userId sk)).

(** A connection that is not closed is a member of the group of its
    current session. *)
Definition membership_invariant (st : server) : Prop :=
  forall ws sk sid, sockets st !! ws = Some sk -> readyState sk <> CLOSED ->
    truthy_key (currentSessionId sk) = Some sid -> ws ∈ group st sid.

(** The session a connection is joined to, if any. *)
Definition current_session (st : server) (ws : WebSocket) : option string :=
  truthy_key (fst (vars st ws)).

Definition reachable (st : server) : Prop := exists evs, st = run evs init.

(** The invariants above, on the components of the state. *)
Definition no_empty_group (m : gmap string (list WebSocket)) : Prop :=
  forall sid g, m !! sid = Some g -> g <> [].

Definition sets_only (m : gmap string (list WebSocket)) : Prop :=
  forall sid g, m !! sid = Some g -> NoDup g.

Definition vars_ok (sk : socket) : Prop :=
  is_Some (truthy_key (currentSessionId sk)) -> is_Some (truthy_key (userId sk)).

Definition members_known (m : gmap string (list WebSocket)) (s : gmap WebSocket socket) : Prop :=
  forall ws sk sid, s !! ws = Some sk -> readyState sk <> CLOSED ->
    truthy_key (currentSessionId sk) = Some sid -> ws ∈ default [] (m !! sid).

(** Connection 2 joins "s1", then "s2", and closes; connection 1 then
    joins "s1". *)
Definition stale : server :=
  run [ Connection 1; Connection 2;
        Message 2 (Some (join_session (Some "s1") (Some "u2"))) 1;
        Message 2 (Some (join_session (Some "s2") (Some "u2"))) 2;
        Close 2 3;
        Message 1 (Some (join_session (Some "s1") (Some "u1"))) 4 ] init.

(** Connections 1 and 2 join "s1"; 2 starts closing. *)
Definition closing : server :=
  run [ Connection 1; Connection 2;
        Message 1 (Some (join_session (Some "s1") (Some "u1"))) 1;
        Message 2 (Some (join_session (Some "s1") (Some "u2"))) 2;
        Closing 2 ] init.

(** A joins "s1", B joins "s1", A edits "a.ts". *)
Definition two_peers : server :=
  run [ Connection 1; Connection 2;
        Message 1 (Some (join_session (Some "s1") (Some "u1"))) 1;
        Message 2 (Some (join_session (Some "s1") (Some "u2"))) 2;
        Message 1 (Some (editor_change_msg (Str "hello") (Str "a.ts"))) 3 ] init.

(** Connection 2, then connection 1, join "A". *)
Definition joined_A : server :=
  run [ Connection 1; Connection 2;
        Message 2 (Some (join_session (Some "A") (Some "u2"))) 1;
        Message 1 (Some (join_session (Some "A") (Some "u1"))) 2 ] init.

(** Connection 1 joins "A" and then "B", alone in both. *)
Definition rejoined : server :=
  run [ Connection 1;
        Message 1 (Some (join_session (Some "A") (Some "u1"))) 1;
        Message 1 (Some (join_session (Some "B") (Some "u1"))) 2 ] init.

(** The two message kinds that are pure fan-out. *)
Definition is_edit (message : inbound) : Prop :=
  match message with
  | editor_change_msg _ _ | cursor_move_msg _ _ => True
  | _ => False
  end.

End Router.

(* ===================================================================== *)
(** ** Restore Controller: [client/src/pages/session.tsx]                  *)
(* ===================================================================== *)

Module RestoreController.
Import Js.

Record FileNode : Type := FileNode_ {
  name : string;
  path : string;
  type_ : string;
  content : value;
}.

(** [toast({ title: "Snapshot loaded", ... })] shows the date made from
    the snapshot's timestamp; [toast({ variant: "destructive", title:
    "Error", description })] shows an error message. *)
Inductive toast : Type :=
| SnapshotLoaded (timestamp : value)
| BackToLive
| Destructive (description : string).

(** The component state the two handlers write, and the toasts shown. *)
Record page : Type := Page {
  currentSnapshotId : option string;
  isViewingSnapshot : bool;
  snapshotFiles : list FileNode;
  toasts : list toast;
}.

(** Statements of a handler body: they may write the page state and may
    throw; what was written before a throw stays written. *)
Definition action (A : Type) : Type := page -> result A * page.

#[global] Instance action_ret : MRet action := fun A a pg => (Ok a, pg).
#[global] Instance action_bind : MBind action := fun A B f m pg =>
  match m pg with
  | (Ok a, pg') => f a pg'
  | (Throw e, pg') => (Throw e, pg')
  end.

Definition lift {A} (r : result A) : action A := fun pg => (r, pg).
Definition throw {A} (e : thrown) : action A := fun pg => (Throw e, pg).

Definition setSnapshotFiles (fs : list FileNode) : action unit := fun pg =>
  (Ok (), Page (currentSnapshotId pg) (isViewingSnapshot pg) fs (toasts pg)).
Definition setIsViewingSnapshot (b : bool) : action unit := fun pg =>
  (Ok (), Page (currentSnapshotId pg) b (snapshotFiles pg) (toasts pg)).
Definition setCurrentSnapshotId (id : option string) : action unit := fun pg =>
  (Ok (), Page id (isViewingSnapshot pg) (snapshotFiles pg) (toasts pg)).
Definition show (t : toast) : action unit := fun pg =>
  (Ok (), Page (currentSnapshotId pg) (isViewingSnapshot pg) (snapshotFiles pg)
               (toasts pg ++ [t])).

(** [try { body } catch (error) { handler(error) }]. *)
Definition try_catch (body : action unit) (handler : thrown -> action unit) : page -> page :=
  fun pg =>
    match body pg with
    | (Ok _, pg') => pg'
    | (Throw e, pg') => snd (handler e pg')
    end.

(** [p.split('/').pop() || p]. *)
Definition file_name (p : string) : string :=
  match or_else (pop (split "/"%char p)) (Str p) with
  | Str n => n
  | _ => p
  end.

Definition node (p : string) (c : value) : FileNode := FileNode_ (file_name p) p "file" c.

(** The callback of the legacy branch: [file.path.split] throws unless
    [file.path] is a string. *)
Definition legacy_node (file : value) : result FileNode :=
  p ← get_field file "path";
  match p with
  | Str p => c ← get_field file "content"; Ok (node p c)
  | Undefined =>
      Throw (TypeError "Cannot read properties of undefined (reading 'split')")
  | Null =>
      Throw (TypeError "Cannot read properties of null (reading 'split')")
  | _ => Throw (TypeError "file.path.split is not a function")
  end.

(** [xs.map(f)] for a callback that may throw. *)
Fixpoint map_throwing {A B} (f : A -> result B) (xs : list A) : result (list B) :=
  match xs with
  | [] => Ok []
  | x :: xs' => y ← f x; ys ← map_throwing f xs'; Ok (y :: ys)
  end.

(** Read-side normalisation: "handle both new format (Record) and
    legacy format (Array)". *)
Definition filesFromSnapshot (diffData : value) : result (list FileNode) :=
  let files := get_field_opt diffData "files" in
  if truthy files then
    match files with
    | Arr items => map_throwing legacy_node items
    | Obj props => Ok (map (fun e => node (fst e) (snd e)) props)
    | _ => Ok []
    end
  else Ok [].

(** The two stored shapes of a diff holding the same path/content
    entries: the legacy array of [{path, content}] and the current
    object. *)
Definition legacy_item (e : string * value) : value :=
  Obj [("path", Str (fst e)); ("content", snd e)].

Definition legacy_diff (entries : list (string * value)) : value :=
  Obj [("files", Arr (map legacy_item entries))].

Definition current_diff (entries : list (string * value)) : value :=
  Obj [("files", Obj entries)].

(** What [fetch] resolves to; [json] is the outcome of
    [response.json()]. *)
Record response : Type := Response {
  ok : bool;
  status : nat;
  statusText : string;
  json : result value;
}.

(** The body of the [try] block.  The argument of the last [toast] is
    built after the three setters have run: a timestamp that cannot be
    made into a date throws there. *)
Definition restore_body (snapshotId : string) (fetched : result response) : action unit :=
  response ← lift fetched;
  if negb (ok response)
  then throw (Error ("HTTP " ++ pretty (status response) ++ ": " ++ statusText response))
  else
    snapshot ← lift (json response);
    diffData ← lift (get_field snapshot "diff");
    files ← lift (filesFromSnapshot diffData);
    if decide (length files = 0%nat)
    then throw (Error "Snapshot has no files")
    else
      setSnapshotFiles files;;
      setIsViewingSnapshot true;;
      setCurrentSnapshotId (Some snapshotId);;
      timestamp ← lift (get_field snapshot "timestamp");
      date ← lift (new_Date_toLocaleString timestamp);
      show (SnapshotLoaded date).

Definition handleRestoreSnapshot (snapshotId : string) (fetched : result response)
  : page -> page :=
  try_catch (restore_body snapshotId fetched)
            (fun error => show (Destructive (message_of error))).

(** The toast that ends a restore whose files have been put on the page:
    the date of the snapshot, or the error of making that date. *)
Definition closing_toast (timestamp : value) : toast :=
  match new_Date_toLocaleString timestamp with
  | Ok date => SnapshotLoaded date
  | Throw e => Destructive (message_of e)
  end.

(** [refetched] is the outcome of [queryClient.refetchQueries]. *)
Definition handleBackToLive (refetched : result unit) : page -> page :=
  try_catch
    (setIsViewingSnapshot false;;
     setSnapshotFiles [];;
     setCurrentSnapshotId None;;
     lift refetched;;
     show BackToLive)
    (fun _ => show (Destructive "Failed to reload live files")).

(** The page after a failed restore: as it was, with the error shown. *)
Definition failed_with (description : string) (pg : page) : page :=
  Page (currentSnapshotId pg) (isViewingSnapshot pg) (snapshotFiles pg)
       (toasts pg ++ [Destructive description])%list.

(** A page showing snapshot "s1", and a 404 response. *)
Definition historical : page := Page (Some "s1") true [node "a.ts" (Str "x")] [].

Definition not_found : result response := Ok (Response false 404 "Not Found" (Ok Null)).

(** A restore fails when it ends by showing the error toast. *)
Definition restore_fails (before after : page) : Prop :=
  exists description, toasts after = (toasts before ++ [Destructive description])%list.

End RestoreController.

(* ===================================================================== *)
(** ** Router events, for the properties of whole runs *)
(* ===================================================================== *)

Module RouterEvents.
Import Js Router.

(** The connection an event is about. *)
Definition event_socket (ev : event) : option WebSocket :=
  match ev with
  | Connection ws | Message ws _ _ | Closing ws | Close ws _ => Some ws
  | SnapshotStored _ _ => None
  end.

End RouterEvents.

(* ===================================================================== *)
(** ** The stored diff as JSON *)
(* ===================================================================== *)

Module SnapshotJson.
Import Js SnapshotEngine.

(** [typeof v === 'string']. *)
Definition is_string (v : value) : Prop :=
  match v with Str _ => True | _ => False end.

(** The JSON of the [normalizedDiff] object the route stores. *)
Definition files_to_value (f : files_value) : value :=
  match f with FilesRecord props => Obj props | FilesArray items => Arr items end.

Definition metadata_to_value (m : metadata) : value :=
  Obj [("linesChanged", Num (linesChanged m));
       ("filesModified", Arr (map Str (filesModified m)))].

Definition diff_to_value (d : normalizedDiff) : value :=
  Obj [("files", files_to_value (files d)); ("metadata", metadata_to_value (meta d))].


End SnapshotJson.

(* ===================================================================== *)
(** ** The session page: [client/src/pages/session.tsx] *)
(* ===================================================================== *)

Module SessionPage.
Import Js SnapshotEngine Router RestoreController.

(** The user every page acts as. *)
Definition currentUserId : string := "fbc686e3-0305-49d5-a92a-462dca28e4fd".

(** [socket.onopen]: the page joins its session. *)
Definition page_join (sessionId : string) : inbound :=
  join_session (Some sessionId) (Some currentUserId).

(** [handleCodeChange]: the local edit is recorded and, when the socket
    is open, sent.  (The debounced save of the file is left out.) *)
Definition handleCodeChange (code filePath : string) (socketOpen : bool)
    (currentFileContent : gmap string value) : gmap string value * option inbound :=
  (<[filePath := Str code]> currentFileContent,
   if socketOpen then Some (editor_change_msg (Str code) (Str filePath)) else None).

(** The [editor-change] branch of [socket.onmessage], for a message
    whose [filePath] is a string; [messageUserId = None] is [null]. *)
Definition onEditorChange (messageUserId : option string) (code : value) (filePath : string)
    (currentFileContent : gmap string value) : gmap string value :=
  if decide (messageUserId <> Some currentUserId)
  then <[filePath := code]> currentFileContent
  else currentFileContent.

(** Two pages join "s1". *)
Definition same_user_peers : server :=
  run [ Connection 1; Connection 2;
        Message 1 (Some (page_join "s1")) 1;
        Message 2 (Some (page_join "s1")) 2 ] init.

(** [createSnapshotMutation] of the current session page: [filesObject]
    is filled by assigning [filesObject[path] = content] for each entry of
    [currentFileContent]; assigning a string to ["__proto__"] defines no
    property. *)
Definition filesObject (currentFileContent : FileSet) : files_value :=
  as_record (List.filter (fun e => negb (String.eqb (fst e) "__proto__")) currentFileContent).


(** The effect that selects the latest snapshot: [snapshots] is the
    query data, by the rows' [id]. *)
Definition selectLatest (snapshots : option (list string)) : page -> page := fun pg =>
  match snapshots with
  | Some rows =>
      match last rows, truthy_key (currentSnapshotId pg) with
      | Some id, None => snd (setCurrentSnapshotId (Some id) pg)
      | _, _ => pg
      end
  | None => pg
  end.

(** The body [createCommentMutation] posts. *)
Record comment_body : Type := CommentBody {
  comment_text : string;
  comment_filePath : string;
  comment_range : value;
  comment_authorId : string;
  comment_snapshotId : string;
}.

(** [createCommentMutation.mutationFn]. *)
Definition commentRequest (pg : page) (text filePath : string) (range : value)
  : result comment_body :=
  match truthy_key (currentSnapshotId pg) with
  | None => Throw (Error "No snapshot selected")
  | Some snapshotId => Ok (CommentBody text filePath range currentUserId snapshotId)
  end.

(** What changes the snapshot view of the page: the two handlers, a click
    in the timeline ([onSelectSnapshot] is [setCurrentSnapshotId]) and
    the effect. *)
Inductive page_event : Type :=
| RestoreSnapshot (snapshotId : string) (fetched : result response)
| BackToLiveClicked (refetched : result unit)
| SelectSnapshot (snapshotId : string)
| SnapshotsEffect (snapshots : option (list string)).

Definition page_step (pg : page) (ev : page_event) : page :=
  match ev with
  | RestoreSnapshot snapshotId fetched => handleRestoreSnapshot snapshotId fetched pg
  | BackToLiveClicked refetched => handleBackToLive refetched pg
  | SelectSnapshot snapshotId => snd (setCurrentSnapshotId (Some snapshotId) pg)
  | SnapshotsEffect snapshots => selectLatest snapshots pg
  end.

(** The page as [useState] initialises it. *)
Definition initial_page : page := Page None false [] [].

(** [c] occurs in [s]. *)
Fixpoint occurs (c : ascii) (s : string) : bool :=
  match s with
  | EmptyString => false
  | String c' rest => Ascii.eqb c' c || occurs c rest
  end.

(** A stored snapshot and the response that carries it. *)
Definition snapshot_s1 : value := Obj [("diff", Obj [("files", Obj [("a.ts", Str "x")])])].

Definition response_s1 : response := Response true 200 "OK" (Ok snapshot_s1).

(** Snapshot "s1" is restored, then "s0" is clicked in the timeline. *)
Definition restore_then_select : list page_event :=
  [ RestoreSnapshot "s1" (Ok response_s1); SelectSnapshot "s0" ].

(** While a snapshot is viewed there are files to show and a snapshot is
    selected. *)
Definition view_invariant (pg : page) : Prop :=
  isViewingSnapshot pg = true -> snapshotFiles pg <> [] /\ is_Some (currentSnapshotId pg).

End SessionPage.

(* ===================================================================== *)
(** ** Session replay: [client/src/components/session-replay.tsx] *)
(* ===================================================================== *)

Module SessionReplay.
Import Js.

(** [v?.[0]]: the property ["0"] of an object, the first element of an
    array, the first character of a string. *)
Definition first_item (v : value) : value :=
  match v with
  | Obj props => default Undefined (own_property props "0")
  | Arr items => default Undefined (head items)
  | Str (String c _) => Str (String c EmptyString)
  | _ => Undefined
  end.

(** [snapshots[currentIndex]]. *)
Definition at_index (snapshots : list value) (currentIndex : Z) : value :=
  if Z.ltb currentIndex 0 then Undefined
  else default Undefined (snapshots !! Z.to_nat currentIndex).

(** [fileContent], the text the replay editor shows. *)
Definition fileContent (snapshots : list value) (currentIndex : Z) : value :=
  let currentSnapshot := at_index snapshots currentIndex in
  let snapshotDiff := get_field_opt currentSnapshot "diff" in
  or_else (get_field_opt (first_item (get_field_opt snapshotDiff "files")) "content")
          (Str "// No content").

Record replay : Type := Replay {
  currentIndex : Z;
  isPlaying : bool;
}.

(** Each handler gives the index it hands to [onIndexChange], if any, and
    the value it sets [isPlaying] to; [n] is [snapshots.length]. *)
Definition handlePlayPause (n : Z) (st : replay) : option Z * bool :=
  if Z.leb (n - 1) (currentIndex st) then (Some 0, true)
  else (None, negb (isPlaying st)).

Definition handlePrevious (st : replay) : option Z * bool :=
  if Z.ltb 0 (currentIndex st) then (Some (currentIndex st - 1), false)
  else (None, isPlaying st).

Definition handleNext (n : Z) (st : replay) : option Z * bool :=
  if Z.ltb (currentIndex st) (n - 1) then (Some (currentIndex st + 1), false)
  else (None, isPlaying st).

Definition handleSliderChange (v : Z) (st : replay) : option Z * bool := (Some v, false).

(** The playback effect: it stops playback when nothing is left to play;
    otherwise its interval asks for the next index. *)
Definition effect_stops (n : Z) (st : replay) : bool :=
  negb (isPlaying st) || Z.leb (n - 1) (currentIndex st).

Definition interval (n : Z) (st : replay) : option Z * bool :=
  if effect_stops n st then (None, isPlaying st)
  else (Some (currentIndex st + 1), isPlaying st).

Inductive replay_event : Type :=
| PlayPause | Previous | Next | Slider (v : Z) | Tick.

Definition handler (n : Z) (ev : replay_event) (st : replay) : option Z * bool :=
  match ev with
  | PlayPause => handlePlayPause n st
  | Previous => handlePrevious st
  | Next => handleNext n st
  | Slider v => handleSliderChange v st
  | Tick => interval n st
  end.

(** A parent that stores the index it is handed, followed by the effect
    of the next render. *)
Definition replay_step (n : Z) (st : replay) (ev : replay_event) : replay :=
  let '(requested, playing) := handler n ev st in
  let st' := Replay (default (currentIndex st) requested) playing in
  if effect_stops n st' then Replay (currentIndex st') false else st'.

(** The slider offers the values from 0 to [max = n - 1]. *)
Definition offered (n : Z) (ev : replay_event) : Prop :=
  match ev with Slider v => 0 <= v <= n - 1 | _ => True end.

(** The index names a snapshot. *)
Definition in_range (n : Z) (st : replay) : Prop := 0 <= currentIndex st <= n - 1.

End SessionReplay.

(* ===================================================================== *)
(** ** Diff viewer: [client/src/components/diff-viewer.tsx] *)
(* ===================================================================== *)

Module DiffViewer.
Import Js.

(** A part of [diffLines]' result. *)
Record part : Type := Part {
  part_value : string;
  added : bool;
  removed : bool;
}.

(** A rendered row: the old and new line numbers shown, and the text. *)
Record row : Type := Row {
  oldNum : option Z;
  newNum : option Z;
  line : string;
}.

(** [line || " "]: an empty line is shown as one space. *)
Definition shown_text (line : string) : string :=
  match or_else (Str line) (Str " ") with
  | Str text => text
  | _ => line
  end.

(** [lines]: the part's text split on line feeds, without the empty
    piece after a final line feed. *)
Definition part_lines (p : part) : list string :=
  let lines := split "010"%char (part_value p) in
  match last lines with
  | Some EmptyString => removelast lines
  | _ => lines
  end.

(** The inner [lines.map]: the counters are threaded through. *)
Fixpoint render_lines (isAdded isRemoved : bool) (lines : list string)
    (oldLineNumber newLineNumber : Z) : list row * (Z * Z) :=
  match lines with
  | [] => ([], (oldLineNumber, newLineNumber))
  | l :: lines' =>
      let oldN := if isAdded then None else Some oldLineNumber in
      let newN := if isRemoved then None else Some newLineNumber in
      let oldLineNumber := if isAdded then oldLineNumber else oldLineNumber + 1 in
      let newLineNumber := if isRemoved then newLineNumber else newLineNumber + 1 in
      let '(rows, counters) := render_lines isAdded isRemoved lines' oldLineNumber newLineNumber in
      (Row oldN newN (shown_text l) :: rows, counters)
  end.

Fixpoint render_from (parts : list part) (oldLineNumber newLineNumber : Z) : list row :=
  match parts with
  | [] => []
  | p :: parts' =>
      let '(rows, (o, n)) :=
        render_lines (added p) (removed p) (part_lines p) oldLineNumber newLineNumber in
      rows ++ render_from parts' o n
  end.

Definition render (parts : list part) : list row := render_from parts 1 1.

(** [k] consecutive numbers from [start]. *)
Definition numbers (start : Z) (k : nat) : list Z := map (fun i => start + Z.of_nat i) (seq 0 k).

(** What a row shows beside its numbers: whether the old number is
    missing, whether the new number is missing, and the text. *)
Definition row_shape (r : row) : bool * bool * string :=
  (match oldNum r with Some _ => false | None => true end,
   match newNum r with Some _ => false | None => true end,
   line r).

(** The rows expected for one part: one per line, without old number iff
    the part is added, without new number iff it is removed. *)
Definition part_shapes (p : part) : list (bool * bool * string) :=
  map (fun l => (added p, removed p, shown_text l)) (part_lines p).

End DiffViewer.

Import Js SnapshotEngine Router RestoreController.

(* ===================================================================== *)
(** ** Snapshot Engine: properties                                         *)
(* ===================================================================== *)

Section SnapshotEngineFacts.

#[local] Arguments mem_string : simpl never.

Lemma fold_left_add_sumZ {A} (f : A -> Z) (l : list A) (acc : Z) :
  fold_left (fun sum x => sum + f x) l acc = acc + sumZ (map f l).
Proof.
  revert acc. induction l as [|x l IH]; intros acc; simpl; [lia|].
  rewrite IH. lia.
Qed.

Lemma split_from_length sep s :
  length (split sep s) = S (length (snd (split_from sep s))).
Proof. unfold split. destruct (split_from sep s); reflexivity. Qed.

Lemma line_count_pos s : 1 <= line_count s.
Proof. unfold line_count. rewrite split_from_length. lia. Qed.

Lemma line_count_empty : line_count "" = 1.
Proof. reflexivity. Qed.

Lemma Object_keys_record fs : Object_keys (as_record fs) = paths fs.
Proof.
  unfold Object_keys, paths, as_record, Object_entries.
  induction fs as [|[p c] fs IH]; simpl; [reflexivity|]. f_equal. exact IH.
Qed.

Lemma Object_values_record fs :
  Object_values (as_record fs) = map (fun e => Str (snd e)) fs.
Proof.
  unfold Object_values, as_record, Object_entries.
  induction fs as [|[p c] fs IH]; simpl; [reflexivity|]. f_equal. exact IH.
Qed.

Lemma own_property_record fs p :
  own_property (Object_entries (as_record fs)) p = Str <$> lookup_path fs p.
Proof.
  unfold lookup_path. simpl.
  induction fs as [|[q c] fs IH]; simpl; [reflexivity|].
  destruct (String.eqb q p); [reflexivity|exact IH].
Qed.

(** [filesModified] is always the key list of the submitted files. *)
Lemma computeMetadata_filesModified filesData previous m :
  computeMetadata filesData previous = Ok m ->
  filesModified m = Object_keys filesData.
Proof.
  unfold computeMetadata. destruct previous as [|prevDiff ?].
  - intros [= <-]. reflexivity.
  - destruct (for_of _ _ _); simpl; [intros [= <-]; reflexivity | discriminate].
Qed.

(** First capture of a session: the sum of the line counts, as the
    reference algorithm has it. *)
Lemma computeMetadata_first_capture (new : FileSet) :
  computeMetadata (as_record new) [] = Ok (spec_metadata new None).
Proof.
  unfold computeMetadata, spec_metadata, spec_linesChanged.
  rewrite Object_keys_record, Object_values_record, fold_left_add_sumZ.
  rewrite map_map. simpl. reflexivity.
Qed.

Lemma member_record_prev prev p :
  plain_path p ->
  lines_or_zero (or_else (member (as_record prev) p) (Str ""))
  = line_count (default "" (lookup_path prev p)).
Proof.
  intros Hp. unfold member. rewrite own_property_record.
  destruct (lookup_path prev p) as [c|]; simpl.
  - unfold or_else. simpl. destruct (String.eqb c "") eqn:E; simpl; [|reflexivity].
    apply String.eqb_eq in E. subst c. reflexivity.
  - unfold plain_path in Hp. rewrite Hp. reflexivity.
Qed.

Lemma first_loop_records prev new acc :
  Forall (fun e => plain_path (fst e)) new ->
  for_of (compare_current (as_record prev)) acc (Object_entries (as_record new))
  = Ok (acc + sumZ (map (code_new_term prev) new)).
Proof.
  intros Hnew. revert acc. simpl.
  induction Hnew as [|[p c] new Hp _ IH]; intros acc; simpl.
  - f_equal. lia.
  - change (mbind ?f (Ok ?a)) with (f a). cbv beta.
    rewrite IH. f_equal. unfold code_new_term at 2. simpl.
    rewrite (member_record_prev prev p Hp). lia.
Qed.

Lemma member_record_new new p :
  plain_path p ->
  Forall (fun e => snd e <> "") new ->
  truthy (member (as_record new) p) = bool_decide (is_Some (lookup_path new p)).
Proof.
  intros Hp Hne. unfold member. rewrite own_property_record.
  destruct (lookup_path new p) as [c|] eqn:E; simpl.
  - assert (c <> "") as Hc.
    { unfold lookup_path in E. destruct (find _ new) as [e|] eqn:F; [|discriminate].
      injection E as <-. apply find_some in F as [Hin _].
      rewrite List.Forall_forall in Hne. exact (Hne _ Hin). }
    apply String.eqb_neq in Hc. rewrite Hc. reflexivity.
  - unfold plain_path in Hp. rewrite Hp. reflexivity.
Qed.

Lemma second_loop_records new prev acc :
  Forall (fun e => snd e <> "") new ->
  Forall (fun e => plain_path (fst e)) prev ->
  fold_left (add_removed (as_record new)) (Object_entries (as_record prev)) acc
  = acc + sumZ (map (spec_removed_term new) prev).
Proof.
  intros Hne Hprev. revert acc. simpl.
  induction Hprev as [|[p c] prev Hp _ IH]; intros acc; simpl; [lia|].
  rewrite IH. rewrite (member_record_new new p Hp Hne).
  unfold spec_removed_term at 2. simpl.
  destruct (lookup_path new p); simpl; lia.
Qed.

(** The capture on two File Sets whose paths are not names of
    [Object.prototype] members and whose new contents are not empty. *)
Lemma computeMetadata_records (new prev : FileSet) :
  Forall (fun e => plain_path (fst e)) new ->
  Forall (fun e => plain_path (fst e)) prev ->
  Forall (fun e => snd e <> "") new ->
  computeMetadata (as_record new) [Some (as_record prev)]
  = Ok (Metadata (sumZ (map (code_new_term prev) new)
                  + sumZ (map (spec_removed_term new) prev))
                 (paths new)).
Proof.
  intros Hnew Hprev Hne. unfold computeMetadata.
  cbn [or_empty]. rewrite (first_loop_records prev new 0 Hnew).
  change (mbind ?f (Ok ?a)) with (f a). cbv beta.
  rewrite (second_loop_records new prev _ Hne Hprev), Object_keys_record.
  reflexivity.
Qed.

(** Where no file is added, the capture is the reference algorithm. *)
Lemma computeMetadata_without_additions (new prev : FileSet) :
  Forall (fun e => plain_path (fst e)) new ->
  Forall (fun e => plain_path (fst e)) prev ->
  Forall (fun e => snd e <> "") new ->
  Forall (fun e => is_Some (lookup_path prev (fst e))) new ->
  computeMetadata (as_record new) [Some (as_record prev)]
  = Ok (spec_metadata new (Some prev)).
Proof.
  intros Hnew Hprev Hne Hall.
  rewrite (computeMetadata_records new prev Hnew Hprev Hne).
  unfold spec_metadata, spec_linesChanged. do 3 f_equal.
  f_equal. apply map_ext_Forall. eapply Forall_impl; [exact Hall|].
  intros e [old Hold]. unfold code_new_term, spec_new_term. rewrite Hold. reflexivity.
Qed.

(** A file emptied by the new set is counted as changed and, its empty
    content being falsy, as removed too. *)
Lemma computeMetadata_emptied_file :
  computeMetadata (as_record [("a.ts", "")]) [Some (as_record [("a.ts", "x" ++ nl ++ "y")])]
  = Ok (Metadata 3 ["a.ts"])
  /\ spec_metadata [("a.ts", "")] (Some [("a.ts", "x" ++ nl ++ "y")]) = Metadata 1 ["a.ts"].
Proof. split; reflexivity. Qed.

(** The three Snapshot Engine examples of the specification. *)
Lemma computeMetadata_examples :
  computeMetadata (as_record [("a.ts", "line1" ++ nl ++ "line2")]) []
  = Ok (Metadata 2 ["a.ts"])
  /\ computeMetadata (as_record [("a.ts", "x" ++ nl ++ "y" ++ nl ++ "z")])
                     [Some (as_record [("a.ts", "x" ++ nl ++ "y")])]
     = Ok (Metadata 1 ["a.ts"])
  /\ computeMetadata (as_record []) [Some (as_record [("a.ts", "x" ++ nl ++ "y")])]
     = Ok (Metadata 2 []).
Proof. repeat split; reflexivity. Qed.

(** C1. The capture is claimed to follow the reference algorithm: a path
    present only in the new File Set adds its full line count.  On the
    previous File Set {"a.ts": "x"} and the new File Set
    {"a.ts": "x", "b.ts": "line1\nline2"} the reference algorithm gives
    [linesChanged = 2], the route gives 1: the missing previous content
    is replaced by [''], and [''.split('\n').length] is 1, not 0. *)
Theorem computeMetadata_added_file_one_line_short :
  let prev : FileSet := [("a.ts", "x")] in
  let new : FileSet := [("a.ts", "x"); ("b.ts", "line1" ++ nl ++ "line2")] in
  computeMetadata (as_record new) [Some (as_record prev)]
  = Ok (Metadata 1 ["a.ts"; "b.ts"])
  /\ spec_metadata new (Some prev) = Metadata 2 ["a.ts"; "b.ts"].
Proof. split; reflexivity. Qed.

Lemma length_index_keys n : length (index_keys n) = n.
Proof. unfold index_keys. rewrite length_map, length_seq. reflexivity. Qed.

Lemma Object_keys_array items :
  Object_keys (FilesArray items) = index_keys (length items).
Proof.
  unfold Object_keys, Object_entries. apply fst_zip.
  rewrite length_index_keys. reflexivity.
Qed.

Lemma Object_values_array items : Object_values (FilesArray items) = items.
Proof.
  unfold Object_values, Object_entries. apply snd_zip.
  rewrite length_index_keys. reflexivity.
Qed.

Lemma sumZ_objects items :
  Forall is_object items -> sumZ (map lines_or_zero items) = 0.
Proof.
  induction 1 as [|v items Hv _ IH]; simpl; [reflexivity|].
  rewrite IH. destruct v; simpl in Hv; try contradiction. reflexivity.
Qed.

(** C10. A legacy array of [{path, content}] objects submitted as the
    first snapshot of a session passes the metadata step without error
    and is handed to validation and storage as it is, with
    [filesModified] the array indices "0", "1", ... and [linesChanged]
    0.  The response is 201 exactly when validation and storage accept
    that row, and 400 exactly when they throw. *)
Theorem capture_legacy_array_first_snapshot (items : list value) {B : Type}
    (persist : normalizedDiff -> result B) :
  Forall is_object items ->
  let d := NormalizedDiff (FilesArray items)
             (Metadata 0 (map (fun i : nat => pretty i) (seq 0 (length items)))) in
  let r := capture (Some (FilesArray items)) [] in
  r = Ok d
  /\ (status_of r persist = 201%nat <-> exists row, persist d = Ok row)
  /\ (status_of r persist = 400%nat <-> exists e, persist d = Throw e).
Proof.
  intros Hitems d r.
  assert (r = Ok d) as ->.
  { subst r d. unfold capture, computeMetadata. cbn [or_empty].
    rewrite Object_keys_array, Object_values_array, fold_left_add_sumZ.
    rewrite (sumZ_objects items Hitems). reflexivity. }
  split; [reflexivity|]. cbn [status_of].
  destruct (persist d) as [row|e]; split; split; try discriminate; eauto;
    intros [? [=]].
Qed.

Lemma capture_legacy_array_first_snapshot_witness :
  let items := [ Obj [("path", Str "a.ts"); ("content", Str "x")];
                 Obj [("path", Str "b.ts"); ("content", Str ("y" ++ nl ++ "z"))] ] in
  Forall is_object items
  /\ capture (Some (FilesArray items)) []
     = Ok (NormalizedDiff (FilesArray items) (Metadata 0 ["0"; "1"]))
  /\ status_of (capture (Some (FilesArray items)) []) (fun d => Ok d) = 201%nat.
Proof.
  intros items. assert (Forall is_object items) as H by (repeat constructor).
  split; [exact H|]. split.
  - exact (proj1 (capture_legacy_array_first_snapshot items (fun d => Ok d) H)).
  - reflexivity.
Defined.

(** With a previous snapshot the same array is rejected, whatever
    validation and storage would do: its items are not strings and
    [content.split] throws. *)
Lemma capture_legacy_array_later_snapshot {B : Type} (persist : normalizedDiff -> result B) :
  status_of (capture (Some (FilesArray [Obj [("path", Str "a.ts"); ("content", Str "x")]]))
                     [Some (as_record [("a.ts", "x")])]) persist = 400%nat.
Proof. reflexivity. Qed.

End SnapshotEngineFacts.

(* ===================================================================== *)
(** ** Connection Registry and Message Router: properties                  *)
(* ===================================================================== *)

Section RouterFacts.

Local Open Scope list_scope.

Implicit Types (st : server) (ws client : WebSocket) (sid : string)
               (m : gmap string (list WebSocket)).

(** *** [broadcast] only appends to the wire *)

Lemma broadcast_connections sid msg ex st :
  activeConnections (broadcast sid msg ex st) = activeConnections st.
Proof. unfold broadcast. destruct (_ !! sid); reflexivity. Qed.

Lemma broadcast_sockets sid msg ex st :
  sockets (broadcast sid msg ex st) = sockets st.
Proof. unfold broadcast. destruct (_ !! sid); reflexivity. Qed.

Lemma broadcast_wire sid msg ex st :
  wire (broadcast sid msg ex st)
  = wire st ++ map (fun client => (client, msg)) (recipients st (group st sid) ex).
Proof.
  unfold broadcast, group. destruct (_ !! sid); simpl; [reflexivity|].
  symmetry. apply app_nil_r.
Qed.

Lemma broadcast_no_group sid msg ex st :
  activeConnections st !! sid = None -> broadcast sid msg ex st = st.
Proof. unfold broadcast. intros ->. reflexivity. Qed.

(** *** Sets of connections *)

Lemma Set_add_elem ws s : ws ∈ Set_add ws s.
Proof. unfold Set_add. case_decide; [assumption|]. set_solver. Qed.

Lemma Set_add_nonempty ws s : Set_add ws s <> [].
Proof. intros E. pose proof (Set_add_elem ws s) as H. rewrite E in H. inversion H. Qed.

Lemma Set_add_NoDup ws s : NoDup s -> NoDup (Set_add ws s).
Proof.
  intros H. unfold Set_add. case_decide; [assumption|].
  apply NoDup_app. split; [assumption|]. split; [|apply NoDup_singleton].
  intros x Hx Hx'. apply list_elem_of_singleton in Hx'. subst. contradiction.
Qed.


Lemma Set_delete_NoDup ws s : NoDup s -> NoDup (Set_delete ws s).
Proof. apply NoDup_filter. Qed.

(** *** The registry under [joined] and [released] *)

Lemma registry_invariant_alt st :
  registry_invariant st <-> no_empty_group (activeConnections st).
Proof.
  unfold registry_invariant, no_empty_group, group. split.
  - intros H sid g E. specialize (H sid). rewrite E in H. simpl in H.
    apply H. eauto.
  - intros H sid. destruct (activeConnections st !! sid) as [g|] eqn:E; simpl.
    + split; [intros _; eauto | eauto].
    + split; [intros [? ?]; discriminate | congruence].
Qed.

Lemma joined_no_empty_group sid ws m : no_empty_group m -> no_empty_group (joined sid ws m).
Proof.
  intros H sid' g. unfold joined. rewrite lookup_insert. case_decide.
  - intros [= <-]. apply Set_add_nonempty.
  - apply H.
Qed.

Lemma released_no_empty_group sid ws m : no_empty_group m -> no_empty_group (released sid ws m).
Proof.
  intros H sid' g. unfold released.
  destruct (m !! sid) as [connections|] eqn:E; [|apply H].
  case_decide as Hlen.
  - rewrite lookup_delete. case_decide; [discriminate|apply H].
  - rewrite lookup_insert. case_decide; [|apply H].
    intros [= <-] E'. rewrite E' in Hlen. apply Hlen. reflexivity.
Qed.

Lemma alter_lookup_Some {A} (f : A -> A) (k : string) (g : A) (m : gmap string A) :
  m !! k = Some g -> alter f k m = <[k := f g]> m.
Proof.
  intros E. apply map_eq. intros j. rewrite lookup_alter, lookup_insert.
  case_decide; [subst; rewrite E; reflexivity | reflexivity].
Qed.

Lemma on_join_connections ws sessionId u now st :
  activeConnections (on_message ws (Some (join_session sessionId u)) now st)
  = match truthy_key sessionId with
    | Some sid => joined sid ws (activeConnections st)
    | None => activeConnections st
    end.
Proof.
  unfold on_message. destruct (vars st ws) as [cur uid].
  destruct (truthy_key sessionId) as [sid|]; [|reflexivity].
  rewrite broadcast_connections. cbn [activeConnections set_vars with_connections].
  unfold joined.
  destruct (activeConnections st !! sid) as [g|] eqn:E; cbn [activeConnections with_connections default].
  - apply alter_lookup_Some. exact E.
  - erewrite alter_lookup_Some by apply lookup_insert_eq.
    apply insert_insert_eq.
Qed.

Lemma with_connections_released_sockets sid ws st :
  sockets (match activeConnections st !! sid with
           | Some connections =>
               if decide (length (Set_delete ws connections) = 0%nat)
               then with_connections (delete sid (activeConnections st)) st
               else with_connections (<[sid := Set_delete ws connections]> (activeConnections st)) st
           | None => st
           end) = sockets st.
Proof. destruct (_ !! sid); [case_decide|]; reflexivity. Qed.

Lemma release_in_place sid ws st :
  match activeConnections st !! sid with
  | Some connections =>
      if decide (length (Set_delete ws connections) = 0%nat)
      then with_connections (delete sid (activeConnections st)) st
      else with_connections (<[sid := Set_delete ws connections]> (activeConnections st)) st
  | None => st
  end = with_connections (released sid ws (activeConnections st)) st.
Proof.
  unfold released. destruct (_ !! sid); [case_decide|]; try reflexivity.
  destruct st; reflexivity.
Qed.

Lemma on_leave_eq ws now st :
  on_message ws (Some leave_session) now st
  = match current_session st ws with
    | Some sid =>
        set_vars ws None None
          (with_connections (released sid ws (activeConnections st))
             (broadcast sid (participant_left (snd (vars st ws)) now) (Some ws) st))
    | None => set_vars ws None None st
    end.
Proof.
  unfold on_message, current_session. destruct (vars st ws) as [cur uid]. simpl.
  destruct (truthy_key cur) as [sid|]; [|reflexivity].
  rewrite release_in_place, broadcast_connections. reflexivity.
Qed.

Lemma on_close_eq ws now st :
  on_close ws now st
  = match current_session st ws, truthy_key (snd (vars st ws)) with
    | Some sid, Some _ =>
        broadcast sid (participant_left (snd (vars st ws)) now) (Some ws)
          (with_connections (released sid ws (activeConnections st)) st)
    | _, _ => st
    end.
Proof.
  unfold on_close, current_session. destruct (vars st ws) as [cur uid]. simpl.
  destruct (truthy_key cur) as [sid|]; [|reflexivity].
  destruct (truthy_key uid); [|reflexivity].
  rewrite release_in_place. reflexivity.
Qed.

Lemma on_message_connections_cases ws data now st :
  activeConnections (on_message ws data now st) = activeConnections st
  \/ (exists sid, activeConnections (on_message ws data now st) = joined sid ws (activeConnections st))
  \/ (exists sid, activeConnections (on_message ws data now st) = released sid ws (activeConnections st)).
Proof.
  destruct data as [[sessionId u|code filePath|position filePath| |]|].
  - rewrite on_join_connections. destruct (truthy_key sessionId); eauto.
  - left. unfold on_message. destruct (vars st ws) as [cur uid].
    destruct (truthy_key cur); [apply broadcast_connections|reflexivity].
  - left. unfold on_message. destruct (vars st ws) as [cur uid].
    destruct (truthy_key cur); [apply broadcast_connections|reflexivity].
  - rewrite on_leave_eq. destruct (current_session st ws); eauto.
  - left. unfold on_message. destruct (vars st ws). reflexivity.
  - left. reflexivity.
Qed.

Lemma on_close_connections_cases ws now st :
  activeConnections (on_close ws now st) = activeConnections st
  \/ (exists sid, activeConnections (on_close ws now st) = released sid ws (activeConnections st)).
Proof.
  rewrite on_close_eq. destruct (current_session st ws); [|eauto].
  destruct (truthy_key _); [|eauto].
  right. rewrite broadcast_connections. eauto.
Qed.

Lemma step_connections_cases st ev :
  activeConnections (step st ev) = activeConnections st
  \/ (exists sid ws, activeConnections (step st ev) = joined sid ws (activeConnections st))
  \/ (exists sid ws, activeConnections (step st ev) = released sid ws (activeConnections st)).
Proof.
  destruct ev as [ws|ws data now|ws|ws now|sid msg]; simpl.
  - destruct (sockets st !! ws); eauto.
  - destruct (is_open st ws); [|eauto].
    destruct (on_message_connections_cases ws data now st) as [H|[[sid H]|[sid H]]]; eauto.
  - destruct (is_open st ws); eauto.
  - destruct (sockets st !! ws) as [sk|]; [|eauto].
    destruct (readyState sk); eauto;
      (destruct (on_close_connections_cases ws now (set_readyState ws CLOSED st))
         as [H|[sid H]]; [left|right; right; exists sid, ws]; exact H).
  - destruct (activeConnections st !! sid); [|eauto]. left. apply broadcast_connections.
Qed.

(** *** Invariants of the reachable states *)

Lemma joined_sets_only sid ws m : sets_only m -> sets_only (joined sid ws m).
Proof.
  intros H sid' g. unfold joined. rewrite lookup_insert. case_decide; [|apply H].
  intros [= <-]. apply Set_add_NoDup.
  destruct (m !! sid) as [g|] eqn:E; simpl; [eapply H; eassumption | constructor].
Qed.

Lemma released_sets_only sid ws m : sets_only m -> sets_only (released sid ws m).
Proof.
  intros H sid' g. unfold released.
  destruct (m !! sid) as [connections|] eqn:E; [|apply H].
  case_decide.
  - rewrite lookup_delete. case_decide; [discriminate|apply H].
  - rewrite lookup_insert. case_decide; [|apply H].
    intros [= <-]. apply Set_delete_NoDup. eapply H; eassumption.
Qed.

Lemma step_no_empty_group st ev :
  no_empty_group (activeConnections st) -> no_empty_group (activeConnections (step st ev)).
Proof.
  intros H. destruct (step_connections_cases st ev) as [E|[(sid & ws & E)|(sid & ws & E)]];
    rewrite E; auto using joined_no_empty_group, released_no_empty_group.
Qed.

Lemma step_sets_only st ev :
  sets_only (activeConnections st) -> sets_only (activeConnections (step st ev)).
Proof.
  intros H. destruct (step_connections_cases st ev) as [E|[(sid & ws & E)|(sid & ws & E)]];
    rewrite E; auto using joined_sets_only, released_sets_only.
Qed.

Lemma run_invariant (P : server -> Prop) :
  (forall st ev, P st -> P (step st ev)) ->
  forall evs st, P st -> P (run evs st).
Proof.
  intros Hstep evs. unfold run.
  induction evs as [|ev evs IH]; intros st H; simpl; [exact H|].
  apply IH, Hstep, H.
Qed.

Lemma reachable_registry_invariant st : reachable st -> registry_invariant st.
Proof.
  intros [evs ->]. apply registry_invariant_alt.
  apply (run_invariant (fun st => no_empty_group (activeConnections st))).
  - apply step_no_empty_group.
  - intros sid g. simpl. rewrite lookup_empty. discriminate.
Qed.

Lemma reachable_groups_are_sets st : reachable st -> groups_are_sets st.
Proof.
  intros [evs ->].
  apply (run_invariant (fun st => sets_only (activeConnections st))).
  - apply step_sets_only.
  - intros sid g. simpl. rewrite lookup_empty. discriminate.
Qed.

Lemma truthy_key_Some x s : truthy_key x = Some s -> x = Some s /\ s <> "".
Proof.
  destruct x as [s'|]; simpl; [|discriminate].
  destruct (String.eqb s' "") eqn:E; [discriminate|].
  intros [= <-]. split; [reflexivity|]. apply String.eqb_neq. exact E.
Qed.

Lemma truthy_key_anonymous u : is_Some (truthy_key (Some (default "anonymous" (truthy_key u)))).
Proof.
  destruct (truthy_key u) as [s|] eqn:E; simpl; [|eauto].
  apply truthy_key_Some in E as [_ Hs]. apply String.eqb_neq in Hs. rewrite Hs. eauto.
Qed.

Lemma vars_invariant_alter (f : socket -> socket) ws (s : gmap WebSocket socket) :
  (forall sk, vars_ok sk -> vars_ok (f sk)) ->
  (forall ws sk, s !! ws = Some sk -> vars_ok sk) ->
  forall ws' sk, alter f ws s !! ws' = Some sk -> vars_ok sk.
Proof.
  intros Hf H ws' sk. rewrite lookup_alter. case_decide; [|apply H].
  subst. destruct (s !! ws') as [sk'|] eqn:E; simpl; [|discriminate].
  intros [= <-]. eapply Hf, H, E.
Qed.

Lemma on_message_sockets ws data now st :
  sockets (on_message ws data now st) = sockets st
  \/ (exists sessionId u,
        sockets (on_message ws data now st)
        = alter (fun sk => Socket sessionId (Some (default "anonymous" (truthy_key u)))
                                  (readyState sk)) ws (sockets st))
  \/ sockets (on_message ws data now st)
     = alter (fun sk => Socket None None (readyState sk)) ws (sockets st).
Proof.
  destruct data as [[sessionId u|code filePath|position filePath| |]|]; unfold on_message;
    try destruct (vars st ws) as [cur uid]; auto.
  - right; left. exists sessionId, u.
    destruct (truthy_key sessionId) as [sid|]; [|reflexivity].
    rewrite broadcast_sockets. cbn.
    destruct (activeConnections st !! sid); reflexivity.
  - left. destruct (truthy_key cur); [apply broadcast_sockets|reflexivity].
  - left. destruct (truthy_key cur); [apply broadcast_sockets|reflexivity].
  - right; right. destruct (truthy_key cur) as [sid|]; [|reflexivity].
    cbn [set_vars sockets]. rewrite with_connections_released_sockets, broadcast_sockets.
    reflexivity.
Qed.

Lemma on_close_sockets ws now st : sockets (on_close ws now st) = sockets st.
Proof.
  rewrite on_close_eq. destruct (current_session st ws); [|reflexivity].
  destruct (truthy_key _); [|reflexivity]. rewrite broadcast_sockets. reflexivity.
Qed.

Lemma step_vars_invariant st ev : vars_invariant st -> vars_invariant (step st ev).
Proof.
  unfold vars_invariant. fold vars_ok. intros H.
  destruct ev as [ws|ws data now|ws|ws now|sid msg]; simpl.
  - destruct (sockets st !! ws) eqn:E; [exact H|]. simpl.
    intros ws' sk. rewrite lookup_insert. case_decide; [|apply H].
    intros [= <-] [? ?]. discriminate.
  - destruct (is_open st ws); [|exact H].
    destruct (on_message_sockets ws data now st) as [E|[(sessionId & u & E)|E]]; rewrite E.
    + exact H.
    + apply vars_invariant_alter; [|exact H].
      intros sk _ _. apply truthy_key_anonymous.
    + apply vars_invariant_alter; [|exact H].
      intros sk _ [? ?]. discriminate.
  - destruct (is_open st ws); [|exact H]. simpl.
    apply vars_invariant_alter; [|exact H]. intros sk Hsk. exact Hsk.
  - destruct (sockets st !! ws) as [sk0|] eqn:E0; [|exact H].
    assert (forall ws' sk, sockets (on_close ws now (set_readyState ws CLOSED st)) !! ws' = Some sk
                           -> vars_ok sk) as Hc.
    { rewrite on_close_sockets. simpl.
      apply vars_invariant_alter; [|exact H]. intros sk Hsk. exact Hsk. }
    destruct (readyState sk0); [exact Hc..|exact H].
  - destruct (activeConnections st !! sid); [|exact H]. rewrite broadcast_sockets. exact H.
Qed.

Lemma reachable_vars_invariant st : reachable st -> vars_invariant st.
Proof.
  intros [evs ->]. apply (run_invariant vars_invariant).
  - apply step_vars_invariant.
  - intros ws sk. simpl. rewrite lookup_empty. discriminate.
Qed.

(** *** Groups under [joined] and [released] *)

Lemma group_joined_eq sid ws m :
  default [] (joined sid ws m !! sid) = Set_add ws (default [] (m !! sid)).
Proof. unfold joined. rewrite lookup_insert_eq. reflexivity. Qed.

Lemma group_joined_ne sid sid' ws m :
  sid <> sid' -> joined sid ws m !! sid' = m !! sid'.
Proof. intros H. unfold joined. rewrite lookup_insert_ne by exact H. reflexivity. Qed.

Lemma group_released_eq sid ws m :
  default [] (released sid ws m !! sid) = Set_delete ws (default [] (m !! sid)).
Proof.
  unfold released. destruct (m !! sid) as [g|] eqn:E; simpl.
  - case_decide as Hlen.
    + rewrite lookup_delete_eq. simpl. symmetry. apply length_zero_iff_nil. exact Hlen.
    + rewrite lookup_insert_eq. reflexivity.
  - rewrite E. reflexivity.
Qed.

Lemma group_released_ne sid sid' ws m :
  sid <> sid' -> released sid ws m !! sid' = m !! sid'.
Proof.
  intros H. unfold released. destruct (m !! sid) as [g|]; [|reflexivity].
  case_decide; [rewrite lookup_delete_ne by exact H | rewrite lookup_insert_ne by exact H];
    reflexivity.
Qed.

Lemma released_deletes_emptied_group sid ws m :
  Set_delete ws (default [] (m !! sid)) = [] -> released sid ws m !! sid = None.
Proof.
  unfold released. destruct (m !! sid) as [g|] eqn:E; simpl; [|intros _; exact E].
  intros ->. simpl. apply lookup_delete_eq.
Qed.

Lemma elem_of_group_joined sid sid' ws ws' m :
  ws' ∈ default [] (m !! sid') -> ws' ∈ default [] (joined sid ws m !! sid').
Proof.
  destruct (decide (sid = sid')) as [<-|Hne].
  - rewrite group_joined_eq. unfold Set_add. case_decide; set_solver.
  - rewrite group_joined_ne by exact Hne. auto.
Qed.

Lemma elem_of_group_released sid sid' ws ws' m :
  ws' <> ws -> ws' ∈ default [] (m !! sid') -> ws' ∈ default [] (released sid ws m !! sid').
Proof.
  intros Hws. destruct (decide (sid = sid')) as [<-|Hne].
  - rewrite group_released_eq. unfold Set_delete. rewrite list_elem_of_filter. auto.
  - rewrite group_released_ne by exact Hne. auto.
Qed.

(** *** Sockets *)

Lemma vars_set_readyState ws ws' r st : vars (set_readyState ws r st) ws' = vars st ws'.
Proof.
  unfold vars. simpl. rewrite lookup_alter. case_decide; [subst|reflexivity].
  destruct (sockets st !! ws'); reflexivity.
Qed.

Lemma is_open_alter_ne (f : socket -> socket) ws client st a w :
  client <> ws ->
  is_open (Server a (alter f ws (sockets st)) w) client = is_open st client.
Proof.
  intros H. unfold is_open. simpl. rewrite lookup_alter_ne by congruence. reflexivity.
Qed.

Lemma is_open_alter_readyState (f : socket -> socket) ws client st a w :
  (forall sk, readyState (f sk) = readyState sk) ->
  is_open (Server a (alter f ws (sockets st)) w) client = is_open st client.
Proof.
  intros H. unfold is_open. simpl. rewrite lookup_alter. case_decide; [subst|reflexivity].
  destruct (sockets st !! client) as [sk|]; simpl; [rewrite H|]; reflexivity.
Qed.

Lemma recipients_ext st st' l ex :
  (forall client, client ∈ l -> Some client <> ex -> is_open st client = is_open st' client) ->
  recipients st l ex = recipients st' l ex.
Proof.
  intros H. unfold recipients. induction l as [|c l IH]; [reflexivity|].
  rewrite !filter_cons.
  rewrite IH by (intros; apply H; [set_solver|assumption]).
  destruct (decide (Some c = ex)) as [E|E].
  - repeat case_decide; tauto.
  - rewrite (H c) by (set_solver || assumption). repeat case_decide; tauto.
Qed.

Lemma recipients_Set_delete st l ws :
  recipients st (Set_delete ws l) (Some ws) = recipients st l (Some ws).
Proof.
  unfold recipients, Set_delete. rewrite list_filter_filter.
  apply list_filter_iff. intros c. split; [tauto|].
  intros [H1 H2]. repeat split; [exact H1|exact H2|congruence].
Qed.

Lemma recipients_Set_add st l ws :
  recipients st (Set_add ws l) (Some ws) = recipients st l (Some ws).
Proof.
  unfold recipients, Set_add. case_decide; [reflexivity|].
  rewrite filter_app, filter_cons_False, filter_nil, app_nil_r by tauto. reflexivity.
Qed.

Lemma recipients_spec st l ex client :
  client ∈ recipients st l ex <-> client ∈ l /\ Some client <> ex /\ is_open st client = true.
Proof. unfold recipients. rewrite list_elem_of_filter. tauto. Qed.

Lemma current_session_set_readyState ws ws' r st :
  current_session (set_readyState ws r st) ws' = current_session st ws'.
Proof. unfold current_session. rewrite vars_set_readyState. reflexivity. Qed.

Lemma is_open_socket st ws :
  is_open st ws = true -> exists sk, sockets st !! ws = Some sk /\ readyState sk = OPEN.
Proof.
  unfold is_open. destruct (sockets st !! ws) as [sk|]; [|discriminate].
  destruct (readyState sk) eqn:E; try discriminate. eauto.
Qed.

Lemma step_Close_open st ws now :
  is_open st ws = true ->
  step st (Close ws now) = on_close ws now (set_readyState ws CLOSED st).
Proof. intros H. apply is_open_socket in H as (sk & E & R). simpl. rewrite E, R. reflexivity. Qed.

Lemma step_Message_open st ws data now :
  is_open st ws = true -> step st (Message ws data now) = on_message ws data now st.
Proof. intros H. simpl. rewrite H. reflexivity. Qed.

Lemma reachable_user_id st ws sid :
  reachable st -> current_session st ws = Some sid ->
  exists uid, truthy_key (snd (vars st ws)) = Some uid.
Proof.
  intros Hr. unfold current_session, vars.
  destruct (sockets st !! ws) as [sk|] eqn:E; simpl; [|discriminate].
  intros Hs. apply (reachable_vars_invariant st Hr ws sk E). eauto.
Qed.

(** The two teardown paths, as functions of the registry and the wire. *)
Lemma leave_effect st ws sid now :
  current_session st ws = Some sid ->
  let st' := on_message ws (Some leave_session) now st in
  activeConnections st' = released sid ws (activeConnections st)
  /\ wire st' = wire st ++ map (fun client => (client, participant_left (snd (vars st ws)) now))
                               (recipients st (group st sid) (Some ws)).
Proof.
  intros Hs. cbv zeta. rewrite on_leave_eq, Hs. split; [reflexivity|].
  cbn [wire set_vars with_connections]. apply broadcast_wire.
Qed.

Lemma close_effect st ws sid uid now :
  current_session st ws = Some sid ->
  truthy_key (snd (vars st ws)) = Some uid ->
  let st' := on_close ws now (set_readyState ws CLOSED st) in
  activeConnections st' = released sid ws (activeConnections st)
  /\ wire st' = wire st ++ map (fun client => (client, participant_left (snd (vars st ws)) now))
                               (recipients st (group st sid) (Some ws)).
Proof.
  intros Hs Hu. cbv zeta.
  rewrite on_close_eq, current_session_set_readyState, vars_set_readyState, Hs, Hu.
  rewrite broadcast_connections, broadcast_wire. split; [reflexivity|].
  unfold group. cbn [wire set_readyState with_connections activeConnections]. do 2 f_equal.
  rewrite group_released_eq, recipients_Set_delete.
  apply recipients_ext. intros client _ Hex.
  apply is_open_alter_ne. congruence.
Qed.

(** C2. After every sequence of router events from the empty registry, a
    session identifier is a key of [activeConnections] if and only if
    its group is non-empty; and when the only member of a group leaves
    or closes, the entry of that group is deleted. *)
Theorem registry_key_iff_group_nonempty (evs : list event) :
  let st := run evs init in
  registry_invariant st
  /\ (forall ws sid now,
        is_open st ws = true -> current_session st ws = Some sid ->
        (forall client, client ∈ group st sid -> client = ws) ->
        activeConnections (step st (Message ws (Some leave_session) now)) !! sid = None
        /\ activeConnections (step st (Close ws now)) !! sid = None).
Proof.
  intros st. assert (reachable st) as Hr by (exists evs; reflexivity).
  split; [apply reachable_registry_invariant, Hr|].
  intros ws sid now Hopen Hs Hlast.
  assert (Set_delete ws (default [] (activeConnections st !! sid)) = []) as Hempty.
  { apply elem_of_nil_inv. intros client. unfold Set_delete.
    rewrite list_elem_of_filter. intros [Hne Hin]. apply Hne, Hlast, Hin. }
  destruct (reachable_user_id st ws sid Hr Hs) as [uid Hu].
  rewrite step_Message_open, step_Close_open by exact Hopen.
  rewrite (proj1 (leave_effect st ws sid now Hs)).
  rewrite (proj1 (close_effect st ws sid uid now Hs Hu)).
  split; apply released_deletes_emptied_group, Hempty.
Qed.

(** C8. An [editor-change] or [cursor-move] message on a connection with
    no current session changes nothing: the registry, the connection
    variables and the wire (so nothing is broadcast and nothing is sent
    back to the sender) are as before, and every later sequence of
    events is processed as if the message had not arrived. *)
Theorem unjoined_edit_is_ignored st ws now msg evs :
  current_session st ws = None ->
  is_edit msg ->
  let st' := step st (Message ws (Some msg) now) in
  st' = st
  /\ on_message ws (Some msg) now st = st
  /\ run (Message ws (Some msg) now :: evs) st = run evs st.
Proof.
  intros Hs Hmsg. cbv zeta.
  assert (on_message ws (Some msg) now st = st) as H.
  { unfold on_message. unfold current_session in Hs.
    destruct (vars st ws) as [cur uid]. simpl in Hs.
    destruct msg; try contradiction; rewrite Hs; reflexivity. }
  assert (step st (Message ws (Some msg) now) = st) as H'.
  { cbn [step]. destruct (is_open st ws); [exact H|reflexivity]. }
  split; [exact H'|]. split; [exact H|].
  unfold run. cbn [fold_left]. rewrite H'. reflexivity.
Qed.

Lemma unjoined_edit_is_ignored_witness :
  current_session (run [Connection 1] init) 1 = None
  /\ is_edit (editor_change_msg (Str "hello") (Str "a.ts"))
  /\ step (run [Connection 1] init)
          (Message 1 (Some (editor_change_msg (Str "hello") (Str "a.ts"))) 7)
     = run [Connection 1] init.
Proof.
  split; [reflexivity|]. split; [exact I|].
  exact (proj1 (unjoined_edit_is_ignored (run [Connection 1] init) 1 7
                  (editor_change_msg (Str "hello") (Str "a.ts")) [] eq_refl I)).
Defined.

Lemma on_join_eq ws sessionId u now st :
  let userId := Some (default "anonymous" (truthy_key u)) in
  on_message ws (Some (join_session sessionId u)) now st
  = match truthy_key sessionId with
    | Some sid =>
        broadcast sid (participant_joined userId now) (Some ws)
          (with_connections (joined sid ws (activeConnections st))
                            (set_vars ws sessionId userId st))
    | None => set_vars ws sessionId userId st
    end.
Proof.
  cbv zeta. unfold on_message. destruct (vars st ws) as [cur uid].
  destruct (truthy_key sessionId) as [sid|]; [|reflexivity].
  f_equal. unfold joined, with_connections. cbn [activeConnections set_vars sockets wire].
  destruct (activeConnections st !! sid) as [g|] eqn:E;
    cbn [activeConnections sockets wire default]; f_equal.
  - apply alter_lookup_Some. exact E.
  - erewrite alter_lookup_Some by apply lookup_insert_eq.
    apply insert_insert_eq.
Qed.

Lemma members_known_alter m m' s (f : socket -> socket) ws0 :
  members_known m s ->
  (forall ws sid, ws <> ws0 -> ws ∈ default [] (m !! sid) -> ws ∈ default [] (m' !! sid)) ->
  (forall sk sid, s !! ws0 = Some sk -> readyState (f sk) <> CLOSED ->
     truthy_key (currentSessionId (f sk)) = Some sid -> ws0 ∈ default [] (m' !! sid)) ->
  members_known m' (alter f ws0 s).
Proof.
  intros H Hother Hself ws sk sid. rewrite lookup_alter. case_decide as Hws.
  - subst ws. destruct (s !! ws0) as [sk0|] eqn:E; simpl; [|discriminate].
    intros [= <-]. apply Hself. reflexivity.
  - intros E R C. apply Hother; [congruence|]. eapply H; eassumption.
Qed.

Lemma step_membership_invariant st ev :
  membership_invariant st -> membership_invariant (step st ev).
Proof.
  unfold membership_invariant, group. fold (members_known (activeConnections st) (sockets st)).
  intros H.
  change (members_known (activeConnections (step st ev)) (sockets (step st ev))).
  destruct ev as [ws0|ws0 data now|ws0|ws0 now|sid0 msg]; cbn [step].
  - destruct (sockets st !! ws0) eqn:E; [exact H|]. cbn [activeConnections sockets].
    intros ws sk sid. rewrite lookup_insert. case_decide; [|apply H].
    intros [= <-] _. discriminate.
  - destruct (is_open st ws0) eqn:Hopen; [|exact H].
    destruct data as [[sessionId u|code filePath|position filePath| |]|].
    + rewrite on_join_eq. destruct (truthy_key sessionId) as [sid0|] eqn:Hk.
      * rewrite broadcast_connections, broadcast_sockets.
        cbn [activeConnections sockets with_connections set_vars].
        apply (members_known_alter (activeConnections st)); [exact H| |].
        -- intros ws sid _. apply elem_of_group_joined.
        -- intros sk sid _ _. cbn [currentSessionId]. rewrite Hk. intros [= <-].
           rewrite group_joined_eq. apply Set_add_elem.
      * cbn [activeConnections sockets set_vars].
        apply (members_known_alter (activeConnections st)); [exact H|auto|].
        intros sk sid _ _. cbn [currentSessionId]. rewrite Hk. discriminate.
    + unfold on_message. destruct (vars st ws0) as [cur uid].
      destruct (truthy_key cur); [|exact H].
      rewrite broadcast_connections, broadcast_sockets. exact H.
    + unfold on_message. destruct (vars st ws0) as [cur uid].
      destruct (truthy_key cur); [|exact H].
      rewrite broadcast_connections, broadcast_sockets. exact H.
    + rewrite on_leave_eq. destruct (current_session st ws0) as [sid0|].
      * cbn [activeConnections sockets with_connections set_vars].
        rewrite broadcast_sockets.
        apply (members_known_alter (activeConnections st)); [exact H| |].
        -- intros ws sid Hne. apply elem_of_group_released. exact Hne.
        -- intros sk sid _ _. discriminate.
      * cbn [activeConnections sockets set_vars].
        apply (members_known_alter (activeConnections st)); [exact H|auto|].
        intros sk sid _ _. discriminate.
    + unfold on_message. destruct (vars st ws0). exact H.
    + exact H.
  - destruct (is_open st ws0) eqn:Hopen; [|exact H].
    cbn [activeConnections sockets set_readyState].
    apply (members_known_alter (activeConnections st)); [exact H|auto|].
    intros sk sid E _ C. apply is_open_socket in Hopen as (sk' & E' & R).
    rewrite E in E'. injection E' as <-. eapply H; [exact E| |exact C].
    rewrite R. discriminate.
  - destruct (sockets st !! ws0) as [sk0|] eqn:E0; [|exact H].
    assert (members_known (activeConnections (on_close ws0 now (set_readyState ws0 CLOSED st)))
                          (sockets (on_close ws0 now (set_readyState ws0 CLOSED st)))) as Hc.
    { rewrite on_close_sockets.
      destruct (on_close_connections_cases ws0 now (set_readyState ws0 CLOSED st))
        as [->|[sid0 ->]]; cbn [activeConnections sockets set_readyState].
      - apply (members_known_alter (activeConnections st)); [exact H|auto|].
        intros sk sid _ R. contradiction R. reflexivity.
      - apply (members_known_alter (activeConnections st)); [exact H| |].
        + intros ws sid Hne. apply elem_of_group_released. exact Hne.
        + intros sk sid _ R. contradiction R. reflexivity. }
    destruct (readyState sk0); [exact Hc..|exact H].
  - destruct (activeConnections st !! sid0); [|exact H].
    rewrite broadcast_connections, broadcast_sockets. exact H.
Qed.

Lemma reachable_membership_invariant st : reachable st -> membership_invariant st.
Proof.
  intros [evs ->]. apply (run_invariant membership_invariant).
  - apply step_membership_invariant.
  - intros ws sk sid. simpl. rewrite lookup_empty. discriminate.
Qed.

Lemma reachable_member st ws sid :
  reachable st -> is_open st ws = true -> current_session st ws = Some sid ->
  ws ∈ group st sid.
Proof.
  intros Hr Hopen Hs. apply is_open_socket in Hopen as (sk & E & R).
  apply (reachable_membership_invariant st Hr ws sk sid E).
  - rewrite R. discriminate.
  - unfold current_session, vars in Hs. rewrite E in Hs. exact Hs.
Qed.

(** C3, amended. [broadcast sid msg (Some c)] changes neither the
    registry nor the sockets; what it sends is [msg], once to each
    member of the group of [sid] other than [c] whose socket is OPEN,
    and to nobody else, so never to [c]; and where [sid] has no group
    the state is returned as it was. *)
Theorem broadcast_reaches_open_peers st sid msg c :
  let st' := broadcast sid msg (Some c) st in
  activeConnections st' = activeConnections st
  /\ sockets st' = sockets st
  /\ (exists sent,
        wire st' = wire st ++ sent
        /\ (forall client msg',
              (client, msg') ∈ sent
              <-> msg' = msg /\ client ∈ group st sid /\ client <> c /\ is_open st client = true)
        /\ (NoDup (group st sid) -> NoDup sent))
  /\ (activeConnections st !! sid = None -> st' = st).
Proof.
  cbv zeta. split; [apply broadcast_connections|]. split; [apply broadcast_sockets|].
  split; [|apply broadcast_no_group].
  exists (map (fun client => (client, msg)) (recipients st (group st sid) (Some c))).
  split; [apply broadcast_wire|]. split.
  - intros client msg'. rewrite list_elem_of_fmap. split.
    + intros (client' & [= -> ->] & Hin). apply recipients_spec in Hin as (Hin & Hex & Hopen).
      repeat split; [exact Hin| congruence | exact Hopen].
    + intros (-> & Hin & Hne & Hopen). exists client. split; [reflexivity|].
      apply recipients_spec. repeat split; [exact Hin| congruence | exact Hopen].
  - intros Hnd. apply NoDup_fmap_2; [intros x y [= ->]; reflexivity|].
    apply NoDup_filter, Hnd.
Qed.

(** C3, as stated, fails: in the reachable state [stale] connection 2 is
    a member of the group of "s1" other than the sender 1, its socket is
    closed, and a broadcast to "s1" sends it nothing. *)
Lemma broadcast_skips_closed_member :
  reachable stale
  /\ group stale "s1" = [2; 1]%nat
  /\ is_open stale 2 = false
  /\ wire (broadcast "s1" (editor_change (Some "u1") (Str "hello") (Str "a.ts") 5) (Some 1%nat) stale)
     = wire stale.
Proof.
  split; [eexists; reflexivity|]. repeat split; vm_compute; reflexivity.
Qed.

(** A member whose closing handshake has started is skipped as well. *)
Lemma broadcast_skips_closing_member :
  group closing "s1" = [1; 2]%nat
  /\ wire (broadcast "s1" (editor_change (Some "u1") (Str "hello") (Str "a.ts") 5)
                     (Some 1%nat) closing)
     = wire closing.
Proof. split; vm_compute; reflexivity. Qed.

(** The end-to-end scenario of the specification: A receives exactly one
    [participant-joined] for B and B none; B receives A's edit and A no
    echo. *)
Lemma two_peer_scenario :
  inbox two_peers 1 = [participant_joined (Some "u2") 2]
  /\ inbox two_peers 2 = [editor_change (Some "u1") (Str "hello") (Str "a.ts") 3]
  /\ group two_peers "s1" = [1; 2]%nat.
Proof. repeat split; vm_compute; reflexivity. Qed.

(** C4, as stated, fails: after joining "A" and then "B", connection 1
    is a member of both groups. *)
Lemma rejoin_leaves_connection_in_both_groups :
  current_session rejoined 1 = Some "B"
  /\ group rejoined "B" = [1%nat]
  /\ group rejoined "A" = [1%nat]
  /\ wire rejoined = [].
Proof. repeat split; vm_compute; reflexivity. Qed.

(** C4, amended. A connection has one current session.  When an open
    connection whose current session is [A] processes [join-session]
    for another session [B], its current session becomes [B] and it is
    a member of the group of [B]; the group of [A] is left as it was,
    so in a reachable state the connection is still a member of it; and
    the only messages sent are [participant-joined] to the open peers
    of [B], so the peers of [A] get no [participant-left]. *)
Theorem rejoin_keeps_previous_group st ws A B u now :
  is_open st ws = true ->
  current_session st ws = Some A ->
  B <> "" ->
  A <> B ->
  let st' := step st (Message ws (Some (join_session (Some B) u)) now) in
  current_session st' ws = Some B
  /\ ws ∈ group st' B
  /\ group st' A = group st A
  /\ (reachable st -> ws ∈ group st' A)
  /\ wire st'
     = wire st ++ map (fun client =>
                         (client, participant_joined (Some (default "anonymous" (truthy_key u))) now))
                      (recipients st (group st B) (Some ws)).
Proof.
  intros Hopen HA HB Hne. cbv zeta.
  assert (reachable st -> ws ∈ group st A) as Hmember
    by (intros Hr; apply reachable_member; assumption).
  rewrite step_Message_open by exact Hopen.
  pose proof (on_join_eq ws (Some B) u now st) as E. cbv zeta in E.
  assert (truthy_key (Some B) = Some B) as HkB.
  { simpl. apply String.eqb_neq in HB. rewrite HB. reflexivity. }
  rewrite HkB in E. rewrite E. clear E.
  apply is_open_socket in Hopen as (sk & Hsk & R).
  repeat split.
  - unfold current_session, vars. rewrite broadcast_sockets.
    cbn [sockets with_connections set_vars]. rewrite lookup_alter_eq, Hsk. exact HkB.
  - unfold group. rewrite broadcast_connections. cbn [activeConnections with_connections].
    rewrite group_joined_eq. apply Set_add_elem.
  - unfold group. rewrite broadcast_connections. cbn [activeConnections with_connections].
    rewrite group_joined_ne by congruence. reflexivity.
  - intros Hr. specialize (Hmember Hr). revert Hmember.
    unfold group. rewrite broadcast_connections. cbn [activeConnections with_connections].
    rewrite group_joined_ne by congruence. auto.
  - rewrite broadcast_wire. unfold group.
    cbn [wire activeConnections with_connections set_vars]. do 2 f_equal.
    rewrite group_joined_eq, recipients_Set_add.
    apply recipients_ext. intros client _ _.
    apply is_open_alter_readyState. reflexivity.
Qed.

Lemma rejoin_keeps_previous_group_witness :
  is_open joined_A 1 = true
  /\ current_session joined_A 1 = Some "A"
  /\ group (step joined_A (Message 1 (Some (join_session (Some "B") (Some "u1"))) 3)) "A"
     = group joined_A "A"
  /\ 1%nat ∈ group joined_A "A".
Proof.
  assert (is_open joined_A 1 = true) as H1 by reflexivity.
  assert (current_session joined_A 1 = Some "A") as H2 by reflexivity.
  split; [exact H1|]. split; [exact H2|]. split.
  - apply (rejoin_keeps_previous_group joined_A 1 "A" "B" (Some "u1") 3 H1 H2);
      discriminate.
  - vm_compute. repeat constructor.
Defined.








End RouterFacts.

(* ===================================================================== *)
(** ** Restore Controller: properties                                      *)
(* ===================================================================== *)

Section RestoreFacts.
Local Open Scope list_scope.

Lemma legacy_node_item e : legacy_node (legacy_item e) = Ok (node (fst e) (snd e)).
Proof. destruct e as [p c]. reflexivity. Qed.

Lemma map_throwing_legacy entries :
  map_throwing legacy_node (map legacy_item entries)
  = Ok (map (fun e => node (fst e) (snd e)) entries).
Proof.
  induction entries as [|e entries IH]; [reflexivity|].
  cbn [map map_throwing]. rewrite legacy_node_item, IH. reflexivity.
Qed.

Lemma filesFromSnapshot_legacy entries :
  filesFromSnapshot (legacy_diff entries) = Ok (map (fun e => node (fst e) (snd e)) entries).
Proof. unfold filesFromSnapshot, legacy_diff. cbn. apply map_throwing_legacy. Qed.

Lemma filesFromSnapshot_current entries :
  filesFromSnapshot (current_diff entries) = Ok (map (fun e => node (fst e) (snd e)) entries).
Proof. reflexivity. Qed.

(** C7. A legacy diff (an array of [{path, content}] objects) and a
    current diff (a path -> content object) that hold the same entries
    both normalise without error, to the same file nodes: in the same
    order, and so to identical lists, when the array lists the entries
    in the order the object enumerates them.  The example of the
    specification, [{files: [{path: "a.ts", content: "x"}]}] against
    [{files: {"a.ts": "x"}}], is the witness. *)
Theorem normalisation_is_shape_independent (entries legacy : list (string * value)) :
  Permutation legacy entries ->
  exists a b,
    filesFromSnapshot (legacy_diff legacy) = Ok a
    /\ filesFromSnapshot (current_diff entries) = Ok b
    /\ Permutation a b
    /\ (legacy = entries -> a = b).
Proof.
  intros Hperm. eexists _, _.
  split; [apply filesFromSnapshot_legacy|]. split; [apply filesFromSnapshot_current|].
  split; [apply Permutation_map, Hperm | intros ->; reflexivity].
Qed.

Lemma normalisation_is_shape_independent_witness :
  Permutation [("a.ts", Str "x")] [("a.ts", Str "x")]
  /\ filesFromSnapshot (Obj [("files", Arr [Obj [("path", Str "a.ts"); ("content", Str "x")]])])
     = filesFromSnapshot (Obj [("files", Obj [("a.ts", Str "x")])]).
Proof.
  assert (Permutation [("a.ts", Str "x")] [("a.ts", Str "x")]) as H by reflexivity.
  split; [exact H|].
  destruct (normalisation_is_shape_independent _ _ H) as (a & b & Ha & Hb & _ & Hab).
  change (filesFromSnapshot (legacy_diff [("a.ts", Str "x")])
          = filesFromSnapshot (current_diff [("a.ts", Str "x")])).
  rewrite Ha, Hb, (Hab eq_refl). reflexivity.
Defined.

Lemma restore_body_eq snapshotId fetched pg :
  restore_body snapshotId fetched pg
  = match fetched with
    | Throw e => (Throw e, pg)
    | Ok response =>
        if negb (ok response)
        then (Throw (Error ("HTTP " ++ pretty (status response) ++ ": "
                             ++ statusText response)%string), pg)
        else
          match json response with
          | Throw e => (Throw e, pg)
          | Ok snapshot =>
              match get_field snapshot "diff" with
              | Throw e => (Throw e, pg)
              | Ok diffData =>
                  match filesFromSnapshot diffData with
                  | Throw e => (Throw e, pg)
                  | Ok files =>
                      if decide (length files = 0%nat)
                      then (Throw (Error "Snapshot has no files"), pg)
                      else
                        match get_field snapshot "timestamp"
                              ≫= new_Date_toLocaleString with
                        | Ok date =>
                            (Ok (), Page (Some snapshotId) true files
                                         (toasts pg ++ [SnapshotLoaded date]))
                        | Throw e => (Throw e, Page (Some snapshotId) true files (toasts pg))
                        end
                  end
              end
          end
    end.
Proof.
  unfold restore_body. destruct fetched as [response|e]; [|reflexivity].
  cbv [mbind action_bind lift throw].
  destruct (negb (ok response)); [reflexivity|].
  destruct (json response) as [snapshot|e]; [|reflexivity].
  destruct (get_field snapshot "diff") as [diffData|e]; [|reflexivity].
  destruct (filesFromSnapshot diffData) as [files|e]; [|reflexivity].
  case_decide; [reflexivity|].
  destruct (get_field snapshot "timestamp") as [timestamp|e]; [|reflexivity].
  cbv [mbind result_bind]. destruct (new_Date_toLocaleString timestamp); reflexivity.
Qed.

Lemma get_field_as_opt v k a :
  get_field v k = Ok a -> forall k', get_field v k' = Ok (get_field_opt v k').
Proof. destruct v; cbn; try discriminate; intros _ k'; reflexivity. Qed.

(** A restore that finds files puts them on the page, whatever happens
    to the last toast. *)
Lemma handleRestoreSnapshot_files snapshotId response snapshot diffData files pg :
  ok response = true ->
  json response = Ok snapshot ->
  get_field snapshot "diff" = Ok diffData ->
  filesFromSnapshot diffData = Ok files ->
  files <> [] ->
  handleRestoreSnapshot snapshotId (Ok response) pg
  = Page (Some snapshotId) true files
         (toasts pg ++ [closing_toast (get_field_opt snapshot "timestamp")]).
Proof.
  intros Hok Hjson Hdiff Hfiles Hne. unfold handleRestoreSnapshot, try_catch.
  rewrite restore_body_eq, Hok, Hjson, Hdiff, Hfiles.
  rewrite (get_field_as_opt _ _ _ Hdiff "timestamp"). cbn [negb].
  case_decide as Hlen; [destruct files; [contradiction|discriminate]|].
  cbv [mbind result_bind]. unfold closing_toast.
  destruct (new_Date_toLocaleString _); reflexivity.
Qed.

(** A restore either shows an error and leaves the view as it was, or
    switches to a non-empty historical File Set. *)
Lemma handleRestoreSnapshot_outcomes snapshotId fetched pg :
  (exists description, handleRestoreSnapshot snapshotId fetched pg = failed_with description pg)
  \/ (exists files shown,
        files <> []
        /\ handleRestoreSnapshot snapshotId fetched pg
           = Page (Some snapshotId) true files (toasts pg ++ [shown])).
Proof.
  destruct fetched as [response|e];
    [|left; eexists; unfold handleRestoreSnapshot, try_catch; rewrite restore_body_eq;
      reflexivity].
  destruct (ok response) eqn:Hok;
    [|left; eexists; unfold handleRestoreSnapshot, try_catch; rewrite restore_body_eq, Hok;
      reflexivity].
  destruct (json response) as [snapshot|e] eqn:Hjson;
    [|left; eexists; unfold handleRestoreSnapshot, try_catch;
      rewrite restore_body_eq, Hok, Hjson; reflexivity].
  destruct (get_field snapshot "diff") as [diffData|e] eqn:Hd;
    [|left; eexists; unfold handleRestoreSnapshot, try_catch;
      rewrite restore_body_eq, Hok, Hjson, Hd; reflexivity].
  destruct (filesFromSnapshot diffData) as [files|e] eqn:Hf;
    [|left; eexists; unfold handleRestoreSnapshot, try_catch;
      rewrite restore_body_eq, Hok, Hjson, Hd, Hf; reflexivity].
  destruct files as [|f files].
  - left; eexists; unfold handleRestoreSnapshot, try_catch;
      rewrite restore_body_eq, Hok, Hjson, Hd, Hf; reflexivity.
  - right. exists (f :: files), (closing_toast (get_field_opt snapshot "timestamp")).
    split; [discriminate|].
    apply (handleRestoreSnapshot_files _ _ _ _ _ _ Hok Hjson Hd Hf). discriminate.
Qed.

Lemma handleRestoreSnapshot_not_ok snapshotId response pg :
  ok response = false ->
  handleRestoreSnapshot snapshotId (Ok response) pg
  = failed_with ("HTTP " ++ pretty (status response) ++ ": " ++ statusText response)%string pg.
Proof.
  intros H. unfold handleRestoreSnapshot, try_catch. rewrite restore_body_eq, H. reflexivity.
Qed.

Lemma handleRestoreSnapshot_no_files snapshotId response snapshot diffData pg :
  ok response = true ->
  json response = Ok snapshot ->
  get_field snapshot "diff" = Ok diffData ->
  filesFromSnapshot diffData = Ok [] ->
  handleRestoreSnapshot snapshotId (Ok response) pg = failed_with "Snapshot has no files" pg.
Proof.
  intros Hok Hjson Hdiff Hfiles. unfold handleRestoreSnapshot, try_catch.
  rewrite restore_body_eq, Hok, Hjson, Hdiff, Hfiles. reflexivity.
Qed.

(** C6. When the fetched snapshot normalises to no file, the restore
    shows the error toast "Snapshot has no files" and leaves the view
    as it was: it does not switch to snapshot mode and does not replace
    the displayed files. *)
Theorem restore_of_empty_snapshot_is_reported snapshotId response snapshot diffData pg :
  ok response = true ->
  json response = Ok snapshot ->
  get_field snapshot "diff" = Ok diffData ->
  filesFromSnapshot diffData = Ok [] ->
  handleRestoreSnapshot snapshotId (Ok response) pg
  = Page (currentSnapshotId pg) (isViewingSnapshot pg) (snapshotFiles pg)
         (toasts pg ++ [Destructive "Snapshot has no files"]).
Proof.
  intros Hok Hjson Hdiff Hfiles.
  rewrite (handleRestoreSnapshot_no_files _ _ _ _ _ Hok Hjson Hdiff Hfiles).
  reflexivity.
Qed.

Lemma restore_of_empty_snapshot_is_reported_witness :
  filesFromSnapshot (Obj [("files", Obj [])]) = Ok []
  /\ handleRestoreSnapshot "s1"
       (Ok (Response true 200 "OK"
              (Ok (Obj [("id", Str "s1"); ("diff", Obj [("files", Obj [])])]))))
       (Page None false [] [])
     = Page None false [] [Destructive "Snapshot has no files"].
Proof.
  split; [reflexivity|].
  apply (restore_of_empty_snapshot_is_reported "s1" _
           (Obj [("id", Str "s1"); ("diff", Obj [("files", Obj [])])])
           (Obj [("files", Obj [])])); reflexivity.
Defined.

(** C9. A restore that fails because the response is not OK, or because
    the snapshot normalises to no file, ends with the error toast and
    leaves [isViewingSnapshot], [snapshotFiles] and
    [currentSnapshotId] as they were. *)
Theorem restore_is_atomic_on_failure snapshotId fetched pg :
  let pg' := handleRestoreSnapshot snapshotId fetched pg in
  (exists response, fetched = Ok response /\ ok response = false)
  \/ (exists response snapshot diffData,
        fetched = Ok response /\ ok response = true /\ json response = Ok snapshot
        /\ get_field snapshot "diff" = Ok diffData /\ filesFromSnapshot diffData = Ok []) ->
  restore_fails pg pg'
  /\ isViewingSnapshot pg' = isViewingSnapshot pg
  /\ snapshotFiles pg' = snapshotFiles pg
  /\ currentSnapshotId pg' = currentSnapshotId pg.
Proof.
  cbv zeta. intros H.
  assert (exists description,
            handleRestoreSnapshot snapshotId fetched pg = failed_with description pg)
    as [description ->].
  { destruct H as [(response & -> & Hok)|(response & snapshot & diffData & -> & H)].
    - eexists. apply handleRestoreSnapshot_not_ok, Hok.
    - destruct H as (Hok & Hjson & Hdiff & Hfiles). eexists.
      apply (handleRestoreSnapshot_no_files _ _ _ _ _ Hok Hjson Hdiff Hfiles). }
  split; [exists description; reflexivity|]. repeat split.
Qed.

Lemma restore_is_atomic_on_failure_witness :
  ok (Response false 404 "Not Found" (Ok Null)) = false
  /\ (restore_fails historical (handleRestoreSnapshot "s2" not_found historical)
      /\ isViewingSnapshot (handleRestoreSnapshot "s2" not_found historical) = true
      /\ snapshotFiles (handleRestoreSnapshot "s2" not_found historical)
         = [node "a.ts" (Str "x")]
      /\ currentSnapshotId (handleRestoreSnapshot "s2" not_found historical) = Some "s1").
Proof.
  split; [reflexivity|].
  exact (restore_is_atomic_on_failure "s2" not_found historical
           (or_introl (ex_intro _ _ (conj eq_refl eq_refl)))).
Defined.

End RestoreFacts.

(* ===================================================================== *)
(** ** Further properties of the router *)
(* ===================================================================== *)

Import RouterEvents SnapshotJson SessionPage SessionReplay DiffViewer.

Section RouterCoverage.

Local Open Scope list_scope.
Implicit Types (st : server) (ws client : WebSocket) (sid : string)
               (m : gmap string (list WebSocket)).

Lemma recipients_members st l ws client :
  client ∈ recipients st l (Some ws) <-> client ∈ l /\ client <> ws /\ is_open st client = true.
Proof.
  rewrite recipients_spec. split; intros (H1 & H2 & H3); repeat split; congruence.
Qed.

Lemma edit_effect st ws sid now :
  is_open st ws = true ->
  current_session st ws = Some sid ->
  (forall code filePath,
     let st' := step st (Message ws (Some (editor_change_msg code filePath)) now) in
     activeConnections st' = activeConnections st
     /\ sockets st' = sockets st
     /\ wire st' = wire st ++ map (fun client =>
                                    (client, editor_change (snd (vars st ws)) code filePath now))
                                 (recipients st (group st sid) (Some ws)))
  /\ (forall position filePath,
        let st' := step st (Message ws (Some (cursor_move_msg position filePath)) now) in
        activeConnections st' = activeConnections st
        /\ sockets st' = sockets st
        /\ wire st' = wire st ++ map (fun client =>
                                       (client, cursor_move (snd (vars st ws)) position filePath now))
                                    (recipients st (group st sid) (Some ws))).
Proof.
  intros Hopen Hs. unfold current_session in Hs.
  split; intros a filePath; cbv zeta; rewrite step_Message_open by exact Hopen;
    unfold on_message; destruct (vars st ws) as [cur uid]; simpl in Hs; rewrite Hs;
    (split; [apply broadcast_connections|]); (split; [apply broadcast_sockets|]);
    apply broadcast_wire.
Qed.

(** X1. An [editor-change] or [cursor-move] message from an open
    connection with a current session changes neither the registry nor
    the sockets; it is relayed, stamped with the sender's [userId] and
    the time, to the open members of the session's group other than the
    sender: the recipients of a list of connections are its members
    other than the sender whose socket is OPEN. *)
Theorem joined_edit_fans_out st ws sid now :
  is_open st ws = true ->
  current_session st ws = Some sid ->
  (forall code filePath,
     let st' := step st (Message ws (Some (editor_change_msg code filePath)) now) in
     activeConnections st' = activeConnections st
     /\ sockets st' = sockets st
     /\ wire st' = wire st ++ map (fun client =>
                                    (client, editor_change (snd (vars st ws)) code filePath now))
                                 (recipients st (group st sid) (Some ws)))
  /\ (forall position filePath,
        let st' := step st (Message ws (Some (cursor_move_msg position filePath)) now) in
        activeConnections st' = activeConnections st
        /\ sockets st' = sockets st
        /\ wire st' = wire st ++ map (fun client =>
                                       (client, cursor_move (snd (vars st ws)) position filePath now))
                                    (recipients st (group st sid) (Some ws)))
  /\ (forall s l client,
        client ∈ recipients s l (Some ws)
        <-> client ∈ l /\ client <> ws /\ is_open s client = true).
Proof.
  intros Hopen Hs. destruct (edit_effect st ws sid now Hopen Hs) as [He Hc].
  split; [exact He|]. split; [exact Hc|]. intros s l client. apply recipients_members.
Qed.

Lemma joined_edit_fans_out_witness :
  is_open two_peers 2 = true
  /\ current_session two_peers 2 = Some "s1"
  /\ wire (step two_peers (Message 2 (Some (editor_change_msg (Str "bye") (Str "a.ts"))) 9))
     = wire two_peers ++ [(1%nat, editor_change (Some "u2") (Str "bye") (Str "a.ts") 9)].
Proof.
  assert (is_open two_peers 2 = true) as H1 by reflexivity.
  assert (current_session two_peers 2 = Some "s1") as H2 by reflexivity.
  split; [exact H1|]. split; [exact H2|].
  exact (proj2 (proj2 (proj1 (joined_edit_fans_out two_peers 2 "s1" 9 H1 H2)
                         (Str "bye") (Str "a.ts")))).
Defined.

Lemma current_session_after_join st ws sessionId u now :
  is_open st ws = true ->
  vars (on_message ws (Some (join_session sessionId u)) now st) ws
  = (sessionId, Some (default "anonymous" (truthy_key u))).
Proof.
  intros Hopen. apply is_open_socket in Hopen as (sk & Hsk & R).
  pose proof (on_join_eq ws sessionId u now st) as E. cbv zeta in E. rewrite E.
  unfold vars. destruct (truthy_key sessionId); [rewrite broadcast_sockets|];
    cbn [sockets with_connections set_vars]; rewrite lookup_alter_eq, Hsk; reflexivity.
Qed.

Lemma anonymous_join_effect st ws sid u now :
  is_open st ws = true ->
  sid <> "" ->
  truthy_key u = None ->
  let st' := step st (Message ws (Some (join_session (Some sid) u)) now) in
  vars st' ws = (Some sid, Some "anonymous")
  /\ wire st' = wire st ++ map (fun client => (client, participant_joined (Some "anonymous") now))
                               (recipients st (group st sid) (Some ws))
  /\ (forall code filePath now',
        wire (step st' (Message ws (Some (editor_change_msg code filePath)) now'))
        = wire st' ++ map (fun client =>
                             (client, editor_change (Some "anonymous") code filePath now'))
                          (recipients st' (group st' sid) (Some ws))).
Proof.
  intros Hopen Hsid Hu. cbv zeta.
  assert (truthy_key (Some sid) = Some sid) as Hk.
  { simpl. apply String.eqb_neq in Hsid. rewrite Hsid. reflexivity. }
  rewrite step_Message_open by exact Hopen.
  pose proof (current_session_after_join st ws (Some sid) u now Hopen) as Hv.
  rewrite Hu in Hv. cbn [default] in Hv.
  set (st' := on_message ws (Some (join_session (Some sid) u)) now st) in *.
  assert (is_open st' ws = true) as Hopen'.
  { subst st'. pose proof (on_join_eq ws (Some sid) u now st) as E. cbv zeta in E.
    rewrite E, Hk. unfold is_open. rewrite broadcast_sockets.
    cbn [sockets with_connections set_vars]. rewrite lookup_alter_eq.
    apply is_open_socket in Hopen as (sk & Hsk & R). rewrite Hsk. cbn. rewrite R. reflexivity. }
  split; [exact Hv|]. split.
  - subst st'. pose proof (on_join_eq ws (Some sid) u now st) as E. cbv zeta in E.
    rewrite E, Hk, Hu, broadcast_wire. unfold group.
    cbn [wire activeConnections with_connections set_vars default]. do 2 f_equal.
    rewrite group_joined_eq, recipients_Set_add.
    apply recipients_ext. intros client _ _. apply is_open_alter_readyState. reflexivity.
  - intros code filePath now'.
    assert (current_session st' ws = Some sid) as Hs' by (unfold current_session; rewrite Hv; exact Hk).
    destruct (edit_effect st' ws sid now' Hopen' Hs') as [He _].
    destruct (He code filePath) as (_ & _ & Hw). rewrite Hw, Hv. reflexivity.
Qed.

(** X2. A [join-session] whose [userId] is missing or empty joins the
    connection as "anonymous": that is the user id its peers are told
    in [participant-joined], and the one its later edits carry.  The
    recipients of a list of connections are its members other than the
    sender whose socket is OPEN. *)
Theorem join_defaults_to_anonymous st ws sid u now :
  is_open st ws = true ->
  sid <> "" ->
  truthy_key u = None ->
  let st' := step st (Message ws (Some (join_session (Some sid) u)) now) in
  vars st' ws = (Some sid, Some "anonymous")
  /\ wire st' = wire st ++ map (fun client => (client, participant_joined (Some "anonymous") now))
                               (recipients st (group st sid) (Some ws))
  /\ (forall code filePath now',
        wire (step st' (Message ws (Some (editor_change_msg code filePath)) now'))
        = wire st' ++ map (fun client =>
                             (client, editor_change (Some "anonymous") code filePath now'))
                          (recipients st' (group st' sid) (Some ws)))
  /\ (forall s l client,
        client ∈ recipients s l (Some ws)
        <-> client ∈ l /\ client <> ws /\ is_open s client = true).
Proof.
  intros Hopen Hsid Hu.
  destruct (anonymous_join_effect st ws sid u now Hopen Hsid Hu) as (Hv & Hw & He).
  cbv zeta. split; [exact Hv|]. split; [exact Hw|]. split; [exact He|].
  intros s l client. apply recipients_members.
Qed.

Lemma join_defaults_to_anonymous_witness :
  is_open (run [Connection 1] init) 1 = true
  /\ "s1" <> ""
  /\ truthy_key (Some "") = None
  /\ vars (step (run [Connection 1] init)
                (Message 1 (Some (join_session (Some "s1") (Some ""))) 2)) 1
     = (Some "s1", Some "anonymous").
Proof.
  assert (is_open (run [Connection 1] init) 1 = true) as H1 by reflexivity.
  assert ("s1" <> "") as H2 by discriminate.
  assert (truthy_key (Some "") = None) as H3 by reflexivity.
  split; [exact H1|]. split; [exact H2|]. split; [exact H3|].
  exact (proj1 (join_defaults_to_anonymous (run [Connection 1] init) 1 "s1" (Some "") 2
                  H1 H2 H3)).
Defined.

Lemma current_session_Some st ws sid :
  current_session st ws = Some sid -> truthy_key (Some sid) = Some sid.
Proof.
  unfold current_session. intros H. apply truthy_key_Some in H as [_ Hne].
  simpl. apply String.eqb_neq in Hne. rewrite Hne. reflexivity.
Qed.

Lemma join_wire st ws sid u now :
  truthy_key (Some sid) = Some sid ->
  wire (on_message ws (Some (join_session (Some sid) u)) now st)
  = wire st ++ map (fun client =>
                      (client, participant_joined (Some (default "anonymous" (truthy_key u))) now))
                   (recipients st (group st sid) (Some ws)).
Proof.
  intros Hk. pose proof (on_join_eq ws (Some sid) u now st) as E. cbv zeta in E.
  rewrite E, Hk, broadcast_wire. unfold group.
  cbn [wire activeConnections with_connections set_vars]. do 2 f_equal.
  rewrite group_joined_eq, recipients_Set_add.
  apply recipients_ext. intros client _ _. apply is_open_alter_readyState. reflexivity.
Qed.

(** X3. In a reachable state, joining again the session a connection is
    already joined to leaves the registry as it is (membership is not
    duplicated), while [participant-joined] is sent to the peers once
    more: to the members of the group other than the connection whose
    socket is OPEN. *)
Theorem rejoin_same_session_keeps_group (evs : list event) ws sid u now :
  let st := run evs init in
  is_open st ws = true ->
  current_session st ws = Some sid ->
  let st' := step st (Message ws (Some (join_session (Some sid) u)) now) in
  activeConnections st' = activeConnections st
  /\ wire st' = wire st ++ map (fun client =>
                      (client, participant_joined (Some (default "anonymous" (truthy_key u))) now))
                   (recipients st (group st sid) (Some ws))
  /\ (forall s l client,
        client ∈ recipients s l (Some ws)
        <-> client ∈ l /\ client <> ws /\ is_open s client = true).
Proof.
  intros st Hopen Hs. cbv zeta. rewrite step_Message_open by exact Hopen.
  assert (reachable st) as Hr by (exists evs; reflexivity).
  pose proof (current_session_Some st ws sid Hs) as Hk.
  split; [|split; [apply join_wire, Hk|intros s l client; apply recipients_members]].
  rewrite on_join_connections, Hk. unfold joined.
  pose proof (reachable_member st ws sid Hr Hopen Hs) as Hin. unfold group in Hin.
  destruct (activeConnections st !! sid) as [g|] eqn:E; simpl in Hin; [|inversion Hin].
  simpl. unfold Set_add. rewrite decide_True by exact Hin.
  apply insert_id, E.
Qed.

Lemma rejoin_same_session_keeps_group_witness :
  is_open joined_A 1 = true
  /\ current_session joined_A 1 = Some "A"
  /\ activeConnections (step joined_A (Message 1 (Some (join_session (Some "A") (Some "u1"))) 3))
     = activeConnections joined_A.
Proof.
  assert (is_open joined_A 1 = true) as H1 by reflexivity.
  assert (current_session joined_A 1 = Some "A") as H2 by reflexivity.
  split; [exact H1|]. split; [exact H2|].
  exact (proj1 (rejoin_same_session_keeps_group _ 1 "A" (Some "u1") 3 H1 H2)).
Defined.

Lemma fst_tagged {A B} (b : B) (l : list A) : (map (fun a => (a, b)) l).*1 = l.
Proof. induction l as [|a l IH]; [reflexivity|]. cbn. f_equal. exact IH. Qed.

(** X4. In every reachable state a group holds each connection at most
    once, so a broadcast sends to each peer at most once. *)
Theorem peers_receive_a_broadcast_once (evs : list event) sid msg exclude :
  let st := run evs init in
  NoDup (group st sid)
  /\ exists sent,
       wire (broadcast sid msg exclude st) = wire st ++ sent
       /\ NoDup (sent.*1).
Proof.
  intros st. assert (NoDup (group st sid)) as Hnd.
  { unfold group. destruct (activeConnections st !! sid) as [g|] eqn:E; simpl; [|constructor].
    eapply (reachable_groups_are_sets st); [exists evs; reflexivity|exact E]. }
  split; [exact Hnd|].
  eexists. split; [apply broadcast_wire|].
  rewrite fst_tagged. apply NoDup_filter, Hnd.
Qed.

(** X5. In every reachable state, a connection whose socket is not
    closed and that has a current session is a member of that session's
    group, and the registry has an entry for the session. *)
Theorem joined_connection_is_member (evs : list event) ws sk sid :
  let st := run evs init in
  sockets st !! ws = Some sk ->
  readyState sk <> CLOSED ->
  current_session st ws = Some sid ->
  ws ∈ group st sid /\ is_Some (activeConnections st !! sid).
Proof.
  intros st Hsk R Hs.
  assert (ws ∈ group st sid) as Hin.
  { apply (reachable_membership_invariant st (ex_intro _ evs eq_refl) ws sk sid Hsk R).
    unfold current_session, vars in Hs. rewrite Hsk in Hs. exact Hs. }
  split; [exact Hin|].
  unfold group in Hin. destruct (activeConnections st !! sid); [eauto|inversion Hin].
Qed.

Lemma joined_connection_is_member_witness :
  sockets closing !! 2%nat = Some (Socket (Some "s1") (Some "u2") CLOSING)
  /\ CLOSING <> CLOSED
  /\ current_session closing 2 = Some "s1"
  /\ (2%nat ∈ group closing "s1" /\ is_Some (activeConnections closing !! "s1")).
Proof.
  assert (sockets closing !! 2%nat = Some (Socket (Some "s1") (Some "u2") CLOSING)) as H1
    by reflexivity.
  assert (readyState (Socket (Some "s1") (Some "u2") CLOSING) <> CLOSED) as H2 by discriminate.
  assert (current_session closing 2 = Some "s1") as H3 by reflexivity.
  split; [exact H1|]. split; [exact H2|]. split; [exact H3|].
  exact (joined_connection_is_member _ 2%nat _ "s1" H1 H2 H3).
Defined.

(** X6. A [join-session] without a session id (missing or empty) sends
    nothing and leaves the registry as it is, but clears the
    connection's current session: whatever group the connection was in
    keeps it, and neither a later [leave-session] nor its [close]
    removes it or tells anybody. *)
Theorem join_without_session_strands_member st ws sessionId u now :
  is_open st ws = true ->
  truthy_key sessionId = None ->
  let st' := step st (Message ws (Some (join_session sessionId u)) now) in
  activeConnections st' = activeConnections st
  /\ wire st' = wire st
  /\ current_session st' ws = None
  /\ (forall now', activeConnections (step st' (Message ws (Some leave_session) now'))
                   = activeConnections st
                   /\ wire (step st' (Message ws (Some leave_session) now')) = wire st)
  /\ (forall now', activeConnections (step st' (Close ws now')) = activeConnections st
                   /\ wire (step st' (Close ws now')) = wire st).
Proof.
  intros Hopen Hk. cbv zeta. rewrite step_Message_open by exact Hopen.
  pose proof (current_session_after_join st ws sessionId u now Hopen) as Hv.
  pose proof (on_join_eq ws sessionId u now st) as E. cbv zeta in E. rewrite Hk in E.
  set (st' := on_message ws (Some (join_session sessionId u)) now st) in *.
  assert (current_session st' ws = None) as Hs' by (unfold current_session; rewrite Hv; exact Hk).
  assert (activeConnections st' = activeConnections st) as Hc by (rewrite E; reflexivity).
  assert (wire st' = wire st) as Hw by (rewrite E; reflexivity).
  assert (is_open st' ws = true) as Hopen'.
  { rewrite E. unfold is_open. cbn [sockets set_vars]. rewrite lookup_alter_eq.
    apply is_open_socket in Hopen as (sk & Hsk & R). rewrite Hsk. cbn. rewrite R. reflexivity. }
  split; [exact Hc|]. split; [exact Hw|]. split; [exact Hs'|]. split; intros now'.
  - rewrite step_Message_open by exact Hopen'. rewrite on_leave_eq, Hs'.
    cbn [activeConnections wire set_vars]. split; assumption.
  - rewrite step_Close_open by exact Hopen'.
    rewrite on_close_eq, current_session_set_readyState, Hs'.
    cbn [activeConnections wire set_readyState]. split; assumption.
Qed.

Lemma join_without_session_strands_member_witness :
  is_open joined_A 1 = true
  /\ truthy_key (Some "") = None
  /\ group (step (step joined_A (Message 1 (Some (join_session (Some "") (Some "u1"))) 3))
                 (Close 1 4)) "A" = [2; 1]%nat.
Proof.
  assert (is_open joined_A 1 = true) as H1 by reflexivity.
  assert (truthy_key (Some "") = None) as H2 by reflexivity.
  split; [exact H1|]. split; [exact H2|].
  unfold group.
  rewrite (proj1 (proj2 (proj2 (proj2 (proj2
             (join_without_session_strands_member joined_A 1 (Some "") (Some "u1") 3 H1 H2)))) 4)).
  reflexivity.
Defined.


Lemma step_closed_noop st ev ws sk :
  sockets st !! ws = Some sk -> readyState sk = CLOSED ->
  event_socket ev = Some ws -> step st ev = st.
Proof.
  intros Hsk R Hev.
  assert (is_open st ws = false) as Hclosed by (unfold is_open; rewrite Hsk, R; reflexivity).
  destruct ev as [w|w data now|w|w now|s msg]; simpl in Hev; try discriminate;
    injection Hev as ->; cbn [step].
  - rewrite Hsk. reflexivity.
  - rewrite Hclosed. reflexivity.
  - rewrite Hclosed. reflexivity.
  - rewrite Hsk, R. reflexivity.
Qed.

Lemma step_sockets_other st ev ws :
  event_socket ev <> Some ws -> sockets (step st ev) !! ws = sockets st !! ws.
Proof.
  intros Hev. destruct ev as [w|w data now|w|w now|s msg]; cbn [step].
  - destruct (sockets st !! w) eqn:E; [reflexivity|]. cbn [sockets].
    apply lookup_insert_ne. simpl in Hev. congruence.
  - destruct (is_open st w); [|reflexivity].
    destruct (on_message_sockets w data now st) as [-> | [(sessionId & u & ->) | ->]];
      [reflexivity| |]; apply lookup_alter_ne; simpl in Hev; congruence.
  - destruct (is_open st w); [|reflexivity]. cbn [sockets set_readyState].
    apply lookup_alter_ne. simpl in Hev. congruence.
  - destruct (sockets st !! w) as [sk|]; [|reflexivity].
    assert (sockets (on_close w now (set_readyState w CLOSED st)) !! ws = sockets st !! ws) as H.
    { rewrite on_close_sockets. cbn [sockets set_readyState].
      apply lookup_alter_ne. simpl in Hev. congruence. }
    destruct (readyState sk); [exact H..|reflexivity].
  - destruct (activeConnections st !! s); [|reflexivity]. rewrite broadcast_sockets. reflexivity.
Qed.

(** Only the connection an event is about has its membership changed, and
    only while its socket is not closed. *)
Lemma step_connections_by st ev :
  activeConnections (step st ev) = activeConnections st
  \/ exists ws sk sid,
       event_socket ev = Some ws /\ sockets st !! ws = Some sk /\ readyState sk <> CLOSED
       /\ (activeConnections (step st ev) = joined sid ws (activeConnections st)
           \/ activeConnections (step st ev) = released sid ws (activeConnections st)).
Proof.
  destruct ev as [w|w data now|w|w now|s msg]; cbn [step].
  - left. destruct (sockets st !! w); reflexivity.
  - destruct (is_open st w) eqn:Hopen; [|left; reflexivity].
    apply is_open_socket in Hopen as (sk & Hsk & R).
    destruct (on_message_connections_cases w data now st) as [H|[[sid H]|[sid H]]];
      [left; exact H | right | right]; exists w, sk, sid;
      (split; [reflexivity|]); (split; [exact Hsk|]); (split; [rewrite R; discriminate|]);
      [left|right]; exact H.
  - left. destruct (is_open st w); reflexivity.
  - destruct (sockets st !! w) as [sk|] eqn:Hsk; [|left; reflexivity].
    destruct (readyState sk) eqn:R; try (left; reflexivity);
      (destruct (on_close_connections_cases w now (set_readyState w CLOSED st)) as [H|[sid H]];
       [left; exact H|right; exists w, sk, sid];
       (split; [reflexivity|]); (split; [exact Hsk|]); (split; [rewrite R; discriminate|]);
       right; exact H).
  - left. destruct (activeConnections st !! s); [apply broadcast_connections|reflexivity].
Qed.

Lemma elem_of_group_joined_inv sid sid' ws ws' m :
  ws' <> ws -> ws' ∈ default [] (joined sid ws m !! sid') -> ws' ∈ default [] (m !! sid').
Proof.
  intros Hne. destruct (decide (sid = sid')) as [<-|Hs].
  - rewrite group_joined_eq. unfold Set_add. case_decide; [auto|].
    rewrite elem_of_app, list_elem_of_singleton. intros [Hin|Heq]; [exact Hin|contradiction].
  - rewrite group_joined_ne by exact Hs. auto.
Qed.

Lemma elem_of_group_released_inv sid sid' ws ws' m :
  ws' ∈ default [] (released sid ws m !! sid') -> ws' ∈ default [] (m !! sid').
Proof.
  destruct (decide (sid = sid')) as [<-|Hs].
  - rewrite group_released_eq. unfold Set_delete. rewrite list_elem_of_filter. tauto.
  - rewrite group_released_ne by exact Hs. auto.
Qed.

Lemma closed_member_step st ev ws sk sid :
  sockets st !! ws = Some sk -> readyState sk = CLOSED ->
  (ws ∈ group (step st ev) sid <-> ws ∈ group st sid)
  /\ sockets (step st ev) !! ws = Some sk.
Proof.
  intros Hsk R. destruct (decide (event_socket ev = Some ws)) as [Hev|Hev].
  - rewrite (step_closed_noop st ev ws sk Hsk R Hev). split; [reflexivity|exact Hsk].
  - split; [|rewrite step_sockets_other by exact Hev; exact Hsk].
    unfold group.
    destruct (step_connections_by st ev) as [-> | (w & sk' & sid' & Hw & Hsk' & R' & [-> | ->])];
      [reflexivity| |].
    + assert (ws <> w) as Hne by congruence. split.
      * apply elem_of_group_joined_inv, Hne.
      * apply elem_of_group_joined.
    + assert (ws <> w) as Hne by congruence. split.
      * apply elem_of_group_released_inv.
      * apply elem_of_group_released, Hne.
Qed.

(** X7. Once a socket is closed, no sequence of events changes the
    groups the connection is in: a connection still in a group when its
    socket closes stays in it. *)
Theorem closed_member_is_never_removed st ws sk sid (evs : list event) :
  sockets st !! ws = Some sk ->
  readyState sk = CLOSED ->
  (ws ∈ group (run evs st) sid <-> ws ∈ group st sid)
  /\ sockets (run evs st) !! ws = Some sk.
Proof.
  revert st. unfold run. induction evs as [|ev evs IH]; intros st Hsk R; cbn [fold_left].
  - split; [reflexivity|exact Hsk].
  - destruct (closed_member_step st ev ws sk sid Hsk R) as [Hm Hsk'].
    destruct (IH (step st ev) Hsk' R) as [Hm' Hsk'']. split; [|exact Hsk''].
    rewrite Hm'. exact Hm.
Qed.

Lemma closed_member_is_never_removed_witness :
  sockets stale !! 2%nat = Some (Socket (Some "s2") (Some "u2") CLOSED)
  /\ 2%nat ∈ group stale "s1"
  /\ 2%nat ∈ group (run [Message 1 (Some leave_session) 8; Close 1 9] stale) "s1".
Proof.
  assert (sockets stale !! 2%nat = Some (Socket (Some "s2") (Some "u2") CLOSED)) as H1
    by reflexivity.
  assert (2%nat ∈ group stale "s1") as H2 by (vm_compute; repeat constructor).
  split; [exact H1|]. split; [exact H2|].
  apply (proj1 (closed_member_is_never_removed stale 2%nat _ "s1"
                  [Message 1 (Some leave_session) 8; Close 1 9] H1 eq_refl)).
  exact H2.
Defined.

(** X8. When the capture route announces a stored snapshot, the message
    goes to every open member of the session's group, nobody excluded,
    and to nobody else; the registry and the sockets are untouched, and
    without a group nothing is sent. *)
Theorem snapshot_created_reaches_every_open_member st sid msg :
  let st' := step st (SnapshotStored sid msg) in
  activeConnections st' = activeConnections st
  /\ sockets st' = sockets st
  /\ exists sent,
       wire st' = wire st ++ sent
       /\ forall client msg',
            (client, msg') ∈ sent
            <-> msg' = msg /\ client ∈ group st sid /\ is_open st client = true.
Proof.
  cbv zeta. cbn [step].
  assert (forall client msg',
            (client, msg') ∈ map (fun c => (c, msg)) (recipients st (group st sid) None)
            <-> msg' = msg /\ client ∈ group st sid /\ is_open st client = true) as Hsent.
  { intros client msg'. rewrite list_elem_of_fmap. split.
    - intros (c & [= -> ->] & Hin). apply recipients_spec in Hin as (Hin & _ & Hopen). auto.
    - intros (-> & Hin & Hopen). exists client. split; [reflexivity|].
      apply recipients_spec. repeat split; [exact Hin|discriminate|exact Hopen]. }
  destruct (activeConnections st !! sid) as [g|] eqn:E.
  - split; [apply broadcast_connections|]. split; [apply broadcast_sockets|].
    eexists. split; [apply broadcast_wire|exact Hsent].
  - split; [reflexivity|]. split; [reflexivity|].
    exists []. split; [symmetry; apply app_nil_r|].
    intros client msg'. rewrite <- Hsent. unfold group. rewrite E. reflexivity.
Qed.


Lemma step_wire_cases st ev :
  wire (step st ev) = wire st
  \/ exists sid msg,
       wire (step st ev)
       = wire st ++ map (fun client => (client, msg))
                        (recipients st (group st sid) (event_socket ev)).
Proof.
  destruct ev as [w|w data now|w|w now|s msg]; cbn [step event_socket].
  - left. destruct (sockets st !! w); reflexivity.
  - destruct (is_open st w) eqn:Hopen; [|left; reflexivity].
    destruct data as [[sessionId u|code filePath|position filePath| |]|].
    + destruct (truthy_key sessionId) as [sid|] eqn:Hk.
      * apply truthy_key_Some in Hk as Hk'. destruct Hk' as [-> _].
        right. eexists _, _. apply join_wire, Hk.
      * left. pose proof (on_join_eq w sessionId u now st) as E. cbv zeta in E.
        rewrite E, Hk. reflexivity.
    + destruct (current_session st w) as [sid|] eqn:Hs.
      * right. destruct (edit_effect st w sid now Hopen Hs) as [He _].
        destruct (He code filePath) as (_ & _ & Hw).
        rewrite step_Message_open in Hw by exact Hopen. eauto.
      * left. unfold on_message. unfold current_session in Hs.
        destruct (vars st w) as [cur uid]. simpl in Hs. rewrite Hs. reflexivity.
    + destruct (current_session st w) as [sid|] eqn:Hs.
      * right. destruct (edit_effect st w sid now Hopen Hs) as [_ He].
        destruct (He position filePath) as (_ & _ & Hw).
        rewrite step_Message_open in Hw by exact Hopen. eauto.
      * left. unfold on_message. unfold current_session in Hs.
        destruct (vars st w) as [cur uid]. simpl in Hs. rewrite Hs. reflexivity.
    + destruct (current_session st w) as [sid|] eqn:Hs.
      * right. eexists _, _. apply (leave_effect st w sid now Hs).
      * left. rewrite on_leave_eq, Hs. reflexivity.
    + left. unfold on_message. destruct (vars st w). reflexivity.
    + left. reflexivity.
  - left. destruct (is_open st w); reflexivity.
  - destruct (sockets st !! w) as [sk|] eqn:Hsk; [|left; reflexivity].
    assert (wire (on_close w now (set_readyState w CLOSED st)) = wire st
            \/ exists sid msg,
                 wire (on_close w now (set_readyState w CLOSED st))
                 = wire st ++ map (fun client => (client, msg))
                                  (recipients st (group st sid) (Some w))) as H.
    { destruct (current_session st w) as [sid|] eqn:Hs.
      - destruct (truthy_key (snd (vars st w))) as [uid|] eqn:Hu.
        + right. eexists _, _. apply (close_effect st w sid uid now Hs Hu).
        + left. rewrite on_close_eq, current_session_set_readyState, vars_set_readyState, Hs, Hu.
          reflexivity.
      - left. rewrite on_close_eq, current_session_set_readyState, Hs. reflexivity. }
    destruct (readyState sk); [exact H..|left; reflexivity].
  - destruct (activeConnections st !! s) eqn:E; [|left; reflexivity].
    right. eexists _, _. apply broadcast_wire.
Qed.

(** X9. Whatever the event, the wire only grows, and each message it
    grows by goes to a connection whose socket is open, which is a
    member of some group, and which is not the connection the event is
    about: the server never echoes to the sender and never sends on a
    socket that is not open. *)
Theorem step_sends_only_to_open_peers st ev :
  exists sent,
    wire (step st ev) = wire st ++ sent
    /\ forall client msg,
         (client, msg) ∈ sent ->
         is_open st client = true
         /\ event_socket ev <> Some client
         /\ exists sid, client ∈ group st sid.
Proof.
  destruct (step_wire_cases st ev) as [E|(sid & m & E)].
  - exists []. split; [rewrite E; symmetry; apply app_nil_r|].
    intros client msg Hin. inversion Hin.
  - eexists. split; [exact E|]. intros client msg.
    rewrite list_elem_of_fmap. intros (c & [= -> ->] & Hin).
    apply recipients_spec in Hin as (Hin & Hex & Hopen).
    split; [exact Hopen|]. split; [congruence|]. exists sid. exact Hin.
Qed.

End RouterCoverage.

(* ===================================================================== *)
(** ** Further properties of the snapshot engine *)
(* ===================================================================== *)

Section SnapshotCoverage.
#[local] Arguments mem_string : simpl never.

(** X10. The first capture of a session, for a File Set sent as an
    object, passes the metadata step with the metadata of the reference
    algorithm: the sum of the line counts, and the paths.  The response
    is 201 exactly when validation and storage accept that row, and 400
    exactly when they throw. *)
Theorem first_capture_matches_reference (new : FileSet) {B : Type}
    (persist : normalizedDiff -> result B) :
  let d := NormalizedDiff (as_record new) (spec_metadata new None) in
  capture (Some (as_record new)) [] = Ok d
  /\ (status_of (capture (Some (as_record new)) []) persist = 201%nat
      <-> exists row, persist d = Ok row)
  /\ (status_of (capture (Some (as_record new)) []) persist = 400%nat
      <-> exists e, persist d = Throw e).
Proof.
  cbv zeta. unfold capture. cbn [or_empty]. rewrite computeMetadata_first_capture.
  split; [reflexivity|]. cbv [mbind result_bind]. cbn [status_of].
  destruct (persist _) as [row|e]; split; split; try discriminate; eauto;
    intros [? [=]].
Qed.

(** X11. What a later capture computes for two File Sets whose paths
    name no [Object.prototype] member and whose new contents are not
    empty: for each new file the distance between its line count and
    that of its previous content, a missing previous content counting
    as one line; plus the line count of each previous file the new set
    lacks. *)
Theorem capture_of_file_sets (new prev : FileSet) rest :
  Forall (fun e => plain_path (fst e)) new ->
  Forall (fun e => plain_path (fst e)) prev ->
  Forall (fun e => snd e <> "") new ->
  computeMetadata (as_record new) (Some (as_record prev) :: rest)
  = Ok (Metadata (sumZ (map (code_new_term prev) new)
                  + sumZ (map (spec_removed_term new) prev))
                 (paths new)).
Proof. intros Hnew Hprev Hne. exact (computeMetadata_records new prev Hnew Hprev Hne). Qed.

Lemma capture_of_file_sets_witness :
  Forall (fun e : string * string => plain_path (fst e)) [("a.ts", "x" ++ nl ++ "y"); ("b.ts", "z")]
  /\ Forall (fun e : string * string => plain_path (fst e)) [("a.ts", "x"); ("c.ts", "w" ++ nl ++ "w")]
  /\ Forall (fun e : string * string => snd e <> "") [("a.ts", "x" ++ nl ++ "y"); ("b.ts", "z")]
  /\ computeMetadata (as_record [("a.ts", "x" ++ nl ++ "y"); ("b.ts", "z")])
                     [Some (as_record [("a.ts", "x"); ("c.ts", "w" ++ nl ++ "w")])]
     = Ok (Metadata 3 ["a.ts"; "b.ts"]).
Proof.
  assert (Forall (fun e : string * string => plain_path (fst e))
                 [("a.ts", "x" ++ nl ++ "y"); ("b.ts", "z")]) as H1
    by (repeat constructor).
  assert (Forall (fun e : string * string => plain_path (fst e))
                 [("a.ts", "x"); ("c.ts", "w" ++ nl ++ "w")]) as H2
    by (repeat constructor).
  assert (Forall (fun e : string * string => snd e <> "")
                 [("a.ts", "x" ++ nl ++ "y"); ("b.ts", "z")]) as H3
    by (repeat constructor; discriminate).
  split; [exact H1|]. split; [exact H2|]. split; [exact H3|].
  exact (capture_of_file_sets _ _ [] H1 H2 H3).
Defined.

Lemma lookup_path_NoDup (fs : FileSet) e :
  NoDup (paths fs) -> e ∈ fs -> lookup_path fs (fst e) = Some (snd e).
Proof.
  unfold lookup_path, paths. induction fs as [|[q d] fs IH]; intros Hnd Hin; [inversion Hin|].
  cbn in Hnd. apply NoDup_cons in Hnd as [Hq Hnd]. cbn [find fst].
  apply elem_of_cons in Hin as [->|Hin].
  - cbn. rewrite String.eqb_refl. reflexivity.
  - destruct (String.eqb q (fst e)) eqn:E.
    + apply String.eqb_eq in E. subst q. exfalso. apply Hq.
      apply list_elem_of_fmap. exists e. auto.
    + apply IH; assumption.
Qed.

Lemma sumZ_zero {A} (f : A -> Z) (l : list A) :
  (forall x, x ∈ l -> f x = 0) -> sumZ (map f l) = 0.
Proof.
  unfold sumZ. induction l as [|x l IH]; intros H; [reflexivity|]. cbn [map fold_right].
  rewrite (H x) by left. rewrite IH; [reflexivity|].
  intros y Hy. apply H. right. exact Hy.
Qed.

(** X12. Capturing again the File Set of the previous snapshot (unique
    plain paths, no empty content) gives [linesChanged = 0]. *)
Theorem resubmitted_file_set_changes_nothing (fs : FileSet) rest :
  NoDup (paths fs) ->
  Forall (fun e => plain_path (fst e)) fs ->
  Forall (fun e => snd e <> "") fs ->
  computeMetadata (as_record fs) (Some (as_record fs) :: rest)
  = Ok (Metadata 0 (paths fs)).
Proof.
  intros Hnd Hplain Hne.
  change (computeMetadata (as_record fs) [Some (as_record fs)] = Ok (Metadata 0 (paths fs))).
  rewrite (computeMetadata_records fs fs Hplain Hplain Hne).
  rewrite !sumZ_zero; [reflexivity| |].
  - intros e He. unfold spec_removed_term. rewrite (lookup_path_NoDup fs e Hnd He). reflexivity.
  - intros e He. unfold code_new_term. rewrite (lookup_path_NoDup fs e Hnd He). cbn [default].
    rewrite Z.sub_diag. reflexivity.
Qed.

Lemma resubmitted_file_set_changes_nothing_witness :
  NoDup (paths [("a.ts", "x" ++ nl ++ "y"); ("b.ts", "z")])
  /\ Forall (fun e : string * string => plain_path (fst e)) [("a.ts", "x" ++ nl ++ "y"); ("b.ts", "z")]
  /\ Forall (fun e : string * string => snd e <> "") [("a.ts", "x" ++ nl ++ "y"); ("b.ts", "z")]
  /\ computeMetadata (as_record [("a.ts", "x" ++ nl ++ "y"); ("b.ts", "z")])
                     [Some (as_record [("a.ts", "x" ++ nl ++ "y"); ("b.ts", "z")])]
     = Ok (Metadata 0 ["a.ts"; "b.ts"]).
Proof.
  assert (NoDup (paths [("a.ts", "x" ++ nl ++ "y"); ("b.ts", "z")])) as H0
    by (cbn; apply NoDup_cons; split;
        [intros H; apply list_elem_of_singleton in H; discriminate | apply NoDup_singleton]).
  assert (Forall (fun e : string * string => plain_path (fst e))
                 [("a.ts", "x" ++ nl ++ "y"); ("b.ts", "z")]) as H1
    by (repeat constructor).
  assert (Forall (fun e : string * string => snd e <> "")
                 [("a.ts", "x" ++ nl ++ "y"); ("b.ts", "z")]) as H3
    by (repeat constructor; discriminate).
  split; [exact H0|]. split; [exact H1|]. split; [exact H3|].
  exact (resubmitted_file_set_changes_nothing _ [] H0 H1 H3).
Defined.


Lemma first_loop_succeeds prevFiles (entries : list (string * value)) acc :
  (exists n, for_of (compare_current prevFiles) acc entries = Ok n)
  <-> Forall (fun e => is_string (snd e)) entries.
Proof.
  revert acc. induction entries as [|[p c] entries IH]; intros acc.
  - split; [constructor | intros _; eexists; reflexivity].
  - cbn [for_of]. destruct c; cbn [compare_current]; cbv [mbind result_bind];
      try (split; [intros [k Hk]; discriminate Hk
                  | intros H; inversion H as [|? ? Hc]; contradiction Hc]).
    rewrite IH. split.
    + intros H. constructor; [exact I|exact H].
    + intros H. inversion H. assumption.
Qed.

Lemma computeMetadata_succeeds_iff filesData prevDiff rest :
  (exists m, computeMetadata filesData (prevDiff :: rest) = Ok m)
  <-> Forall (fun e => is_string (snd e)) (Object_entries filesData).
Proof.
  unfold computeMetadata. rewrite <- (first_loop_succeeds (or_empty prevDiff) _ 0). split.
  - intros [m Hm]. destruct (for_of _ _ _) as [n|e]; [eauto|discriminate].
  - intros [n ->]. eexists. reflexivity.
Qed.


(** X14. Once a session has a snapshot, a non-empty legacy array of
    [{path, content}] objects is rejected with status 400: the older
    session page can only create the first snapshot of a session. *)
Theorem later_capture_rejects_legacy_array items prevDiff rest {B : Type}
    (persist : normalizedDiff -> result B) :
  items <> [] ->
  Forall is_object items ->
  (exists e, capture (Some (FilesArray items)) (prevDiff :: rest) = Throw e)
  /\ status_of (capture (Some (FilesArray items)) (prevDiff :: rest)) persist = 400%nat.
Proof.
  intros Hne Hobj.
  assert (exists e, computeMetadata (FilesArray items) (prevDiff :: rest) = Throw e) as [e He].
  { destruct (computeMetadata (FilesArray items) (prevDiff :: rest)) as [m|e] eqn:E; [|eauto].
    exfalso.
    assert (Forall (fun e => is_string (snd e)) (Object_entries (FilesArray items))) as Hs.
    { apply (proj1 (computeMetadata_succeeds_iff (FilesArray items) prevDiff rest)). eauto. }
    apply Forall_fmap in Hs. fold (Object_values (FilesArray items)) in Hs.
    rewrite Object_values_array in Hs.
    destruct items as [|v items]; [contradiction Hne; reflexivity|].
    inversion Hs as [|? ? Hv _]. inversion Hobj as [|? ? Hv' _]. subst.
    destruct v; cbn in Hv, Hv'; contradiction. }
  unfold capture. cbn [or_empty]. rewrite He. split; [eauto|reflexivity].
Qed.

Lemma later_capture_rejects_legacy_array_witness :
  [Obj [("path", Str "a.ts"); ("content", Str "x")]] <> []
  /\ Forall is_object [Obj [("path", Str "a.ts"); ("content", Str "x")]]
  /\ status_of (capture (Some (FilesArray [Obj [("path", Str "a.ts"); ("content", Str "x")]]))
                        [Some (FilesArray [Obj [("path", Str "a.ts"); ("content", Str "x")]])])
               (fun d => Ok d)
     = 400%nat.
Proof.
  assert ([Obj [("path", Str "a.ts"); ("content", Str "x")]] <> []) as H1 by discriminate.
  assert (Forall is_object [Obj [("path", Str "a.ts"); ("content", Str "x")]]) as H2
    by (repeat constructor).
  split; [exact H1|]. split; [exact H2|].
  exact (proj2 (later_capture_rejects_legacy_array _ _ [] (fun d => Ok d) H1 H2)).
Defined.

Lemma lines_or_zero_nonneg c : 0 <= lines_or_zero c.
Proof. destruct c; cbn; try lia. pose proof (line_count_pos s). lia. Qed.

Lemma first_loop_nonneg prevFiles (entries : list (string * value)) acc n :
  0 <= acc -> for_of (compare_current prevFiles) acc entries = Ok n -> 0 <= n.
Proof.
  revert acc. induction entries as [|[p c] entries IH]; intros acc Hacc; cbn [for_of].
  - intros [= <-]. exact Hacc.
  - destruct c; cbn [compare_current]; try discriminate.
    change (mbind ?f (Ok ?a)) with (f a). cbv beta. apply IH. lia.
Qed.

Lemma second_loop_nonneg filesData (entries : list (string * value)) acc :
  0 <= acc -> 0 <= fold_left (add_removed filesData) entries acc.
Proof.
  revert acc. induction entries as [|[p c] entries IH]; intros acc Hacc; cbn [fold_left].
  - exact Hacc.
  - apply IH. unfold add_removed. pose proof (lines_or_zero_nonneg c).
    destruct (negb _); lia.
Qed.

(** X15. [linesChanged] of a successful capture is never negative. *)
Theorem linesChanged_is_not_negative filesData previousSnapshots m :
  computeMetadata filesData previousSnapshots = Ok m -> 0 <= linesChanged m.
Proof.
  unfold computeMetadata. destruct previousSnapshots as [|prevDiff rest].
  - intros [= <-]. cbn [linesChanged]. rewrite fold_left_add_sumZ.
    induction (Object_values filesData) as [|c l IH]; [cbn; lia|].
    cbn [map]. unfold sumZ in *. cbn [fold_right].
    pose proof (lines_or_zero_nonneg c). lia.
  - destruct (for_of _ _ _) as [n|e] eqn:E; [|discriminate].
    change (mbind ?f (Ok ?a)) with (f a). cbv beta. intros [= <-]. cbn [linesChanged].
    apply second_loop_nonneg. eapply first_loop_nonneg; [|exact E]. lia.
Qed.

Lemma linesChanged_is_not_negative_witness :
  computeMetadata (as_record [("a.ts", "x")]) [Some (as_record [("a.ts", "x" ++ nl ++ "y")])]
  = Ok (Metadata 1 ["a.ts"])
  /\ 0 <= linesChanged (Metadata 1 ["a.ts"]).
Proof.
  assert (computeMetadata (as_record [("a.ts", "x")])
                          [Some (as_record [("a.ts", "x" ++ nl ++ "y")])]
          = Ok (Metadata 1 ["a.ts"])) as H by reflexivity.
  split; [exact H|].
  exact (linesChanged_is_not_negative _ _ _ H).
Defined.





(** X17. A capture without files (no [diff.files], or a page that has
    no edited file yet) is accepted whatever the previous snapshots,
    with no modified file; restoring a snapshot that holds its diff
    fails with "Snapshot has no files". *)
Theorem empty_capture_cannot_be_restored previous :
  exists d,
    capture None previous = Ok d
    /\ capture (Some (filesObject [])) previous = Ok d
    /\ filesModified (meta d) = []
    /\ forall snapshotId response snapshot pg,
         ok response = true ->
         json response = Ok snapshot ->
         get_field snapshot "diff" = Ok (diff_to_value d) ->
         handleRestoreSnapshot snapshotId (Ok response) pg
         = failed_with "Snapshot has no files" pg.
Proof.
  assert (exists m, computeMetadata (FilesRecord []) previous = Ok m
                    /\ filesModified m = []) as (m & Hm & Hf).
  { destruct previous as [|prevDiff rest]; eexists; split; reflexivity. }
  exists (NormalizedDiff (FilesRecord []) m).
  assert (capture None previous = Ok (NormalizedDiff (FilesRecord []) m)) as Hc
    by (unfold capture; cbn [or_empty]; rewrite Hm; reflexivity).
  split; [exact Hc|]. split; [exact Hc|]. split; [exact Hf|].
  intros snapshotId response snapshot pg Hok Hjson Hdiff.
  apply (handleRestoreSnapshot_no_files _ _ _ _ _ Hok Hjson Hdiff). reflexivity.
Qed.

End SnapshotCoverage.

(* ===================================================================== *)
(** ** Further properties of the session page *)
(* ===================================================================== *)

Section PageCoverage.
Local Open Scope list_scope.

(** X18. A restore whose response is OK and whose snapshot normalises
    to at least one file switches the page to snapshot mode with exactly
    those files and records the snapshot id.  It then shows the
    "Snapshot loaded" toast with the date of the snapshot, unless the
    timestamp cannot be made into a date: then the error toast is shown
    instead, with the page already in snapshot mode. *)
Theorem restore_shows_the_snapshot snapshotId response snapshot diffData files pg :
  ok response = true ->
  json response = Ok snapshot ->
  get_field snapshot "diff" = Ok diffData ->
  filesFromSnapshot diffData = Ok files ->
  files <> [] ->
  let timestamp := get_field_opt snapshot "timestamp" in
  handleRestoreSnapshot snapshotId (Ok response) pg
  = Page (Some snapshotId) true files
         (toasts pg ++ [if to_primitive_throws timestamp
                        then Destructive "Cannot convert object to primitive value"
                        else SnapshotLoaded timestamp]).
Proof.
  intros Hok Hjson Hdiff Hfiles Hne timestamp.
  rewrite (handleRestoreSnapshot_files _ _ _ _ _ _ Hok Hjson Hdiff Hfiles Hne).
  fold timestamp. unfold closing_toast, new_Date_toLocaleString.
  destruct (to_primitive_throws timestamp); reflexivity.
Qed.

Lemma restore_shows_the_snapshot_witness :
  filesFromSnapshot (Obj [("files", Obj [("src/a.ts", Str "x")])])
  = Ok [node "src/a.ts" (Str "x")]
  /\ handleRestoreSnapshot "s1"
       (Ok (Response true 200 "OK"
              (Ok (Obj [("diff", Obj [("files", Obj [("src/a.ts", Str "x")])]);
                        ("timestamp", Str "2025-11-14T10:00:00Z")]))))
       initial_page
     = Page (Some "s1") true [FileNode_ "a.ts" "src/a.ts" "file" (Str "x")]
            [SnapshotLoaded (Str "2025-11-14T10:00:00Z")]
  /\ handleRestoreSnapshot "s1"
       (Ok (Response true 200 "OK"
              (Ok (Obj [("diff", Obj [("files", Obj [("src/a.ts", Str "x")])]);
                        ("timestamp", Obj [("toString", Num 1)])]))))
       initial_page
     = Page (Some "s1") true [FileNode_ "a.ts" "src/a.ts" "file" (Str "x")]
            [Destructive "Cannot convert object to primitive value"].
Proof.
  assert ([node "src/a.ts" (Str "x")] <> []) as Hne by discriminate.
  split; [reflexivity|]. split.
  - exact (restore_shows_the_snapshot "s1"
             (Response true 200 "OK"
                (Ok (Obj [("diff", Obj [("files", Obj [("src/a.ts", Str "x")])]);
                          ("timestamp", Str "2025-11-14T10:00:00Z")])))
             (Obj [("diff", Obj [("files", Obj [("src/a.ts", Str "x")])]);
                   ("timestamp", Str "2025-11-14T10:00:00Z")])
             (Obj [("files", Obj [("src/a.ts", Str "x")])])
             [node "src/a.ts" (Str "x")] initial_page
             eq_refl eq_refl eq_refl eq_refl Hne).
  - reflexivity.
Defined.

(** X19. "Back to live" leaves snapshot mode, drops the historical
    files and clears the selected snapshot whether or not the refetch
    succeeds; only the toast differs. *)
Theorem back_to_live_always_leaves_snapshot_mode refetched pg :
  let pg' := handleBackToLive refetched pg in
  isViewingSnapshot pg' = false
  /\ snapshotFiles pg' = []
  /\ currentSnapshotId pg' = None
  /\ toasts pg' = toasts pg ++ [match refetched with
                                | Ok _ => BackToLive
                                | Throw _ => Destructive "Failed to reload live files"
                                end].
Proof. destruct refetched; repeat split. Qed.

Lemma page_step_view_invariant pg ev : view_invariant pg -> view_invariant (page_step pg ev).
Proof.
  unfold view_invariant. intros H. destruct ev as [id fetched|refetched|id|snapshots];
    cbn [page_step].
  - destruct (handleRestoreSnapshot_outcomes id fetched pg)
      as [[d ->]|(files & ts & Hne & ->)]; cbn; [exact H|eauto].
  - destruct refetched; cbn; discriminate.
  - cbn. intros Hv. split; [apply H, Hv|eauto].
  - unfold selectLatest. destruct snapshots as [rows|]; [|exact H].
    destruct (last rows); [|exact H].
    destruct (truthy_key (currentSnapshotId pg)); [exact H|].
    cbn. intros Hv. split; [apply H, Hv|eauto].
Qed.

(** X20. Over any sequence of restores, returns to live, timeline clicks
    and runs of the selection effect from the initial page: whenever
    the page is in snapshot mode it has files to show and a selected
    snapshot. *)
Theorem snapshot_view_is_never_empty (evs : list page_event) :
  let pg := fold_left page_step evs initial_page in
  isViewingSnapshot pg = true ->
  snapshotFiles pg <> [] /\ is_Some (currentSnapshotId pg).
Proof.
  cbv zeta. change (view_invariant (fold_left page_step evs initial_page)).
  assert (view_invariant initial_page) as H0 by (intros H; discriminate H).
  revert H0. generalize initial_page.
  induction evs as [|ev evs IH]; intros pg H; cbn [fold_left]; [exact H|].
  apply IH, page_step_view_invariant, H.
Qed.

Lemma snapshot_view_is_never_empty_witness :
  isViewingSnapshot (fold_left page_step restore_then_select initial_page) = true
  /\ (snapshotFiles (fold_left page_step restore_then_select initial_page) <> []
      /\ is_Some (currentSnapshotId (fold_left page_step restore_then_select initial_page))).
Proof.
  split; [reflexivity|].
  exact (snapshot_view_is_never_empty restore_then_select eq_refl).
Defined.

Lemma truthy_key_nonempty s : s <> "" -> truthy_key (Some s) = Some s.
Proof. intros H. cbn. apply String.eqb_neq in H. rewrite H. reflexivity. Qed.

(** X21. A comment added right after a successful restore is attached to
    the restored snapshot; right after "back to live" adding a comment
    fails with "No snapshot selected", until the selection effect has
    picked the latest snapshot, to which comments then go. *)
Theorem comments_follow_the_shown_snapshot snapshotId response snapshot diffData files pg
    text filePath range :
  ok response = true ->
  json response = Ok snapshot ->
  get_field snapshot "diff" = Ok diffData ->
  filesFromSnapshot diffData = Ok files ->
  files <> [] ->
  snapshotId <> "" ->
  commentRequest (handleRestoreSnapshot snapshotId (Ok response) pg) text filePath range
  = Ok (CommentBody text filePath range currentUserId snapshotId)
  /\ (forall refetched,
        commentRequest (handleBackToLive refetched pg) text filePath range
        = Throw (Error "No snapshot selected"))
  /\ (forall refetched rows latest,
        last rows = Some latest -> latest <> "" ->
        commentRequest (selectLatest (Some rows) (handleBackToLive refetched pg))
                       text filePath range
        = Ok (CommentBody text filePath range currentUserId latest)).
Proof.
  intros Hok Hjson Hdiff Hfiles Hne Hid. split; [|split].
  - rewrite (handleRestoreSnapshot_files _ _ _ _ _ _ Hok Hjson Hdiff Hfiles Hne).
    unfold commentRequest. cbn [currentSnapshotId]. rewrite (truthy_key_nonempty _ Hid).
    reflexivity.
  - intros refetched. destruct refetched; reflexivity.
  - intros refetched rows latest Hlast Hl.
    assert (currentSnapshotId (handleBackToLive refetched pg) = None) as Hn
      by (destruct refetched; reflexivity).
    unfold selectLatest, commentRequest. rewrite Hlast, Hn. cbn.
    apply String.eqb_neq in Hl. rewrite Hl. reflexivity.
Qed.

Lemma comments_follow_the_shown_snapshot_witness :
  "s1" <> ""
  /\ commentRequest (handleRestoreSnapshot "s1" (Ok response_s1) initial_page) "nice" "a.ts" Null
     = Ok (CommentBody "nice" "a.ts" Null currentUserId "s1").
Proof.
  assert ("s1" <> "") as H by discriminate.
  assert ([node "a.ts" (Str "x")] <> []) as Hne by discriminate.
  split; [exact H|].
  exact (proj1 (comments_follow_the_shown_snapshot "s1" response_s1 snapshot_s1
                  (Obj [("files", Obj [("a.ts", Str "x")])])
                  [node "a.ts" (Str "x")] initial_page "nice" "a.ts" Null
                  eq_refl eq_refl eq_refl eq_refl Hne H)).
Defined.

Lemma split_from_last sep s :
  (snd (split_from sep s) = [] /\ fst (split_from sep s) = s /\ occurs sep s = false)
  \/ (exists pre x, last (snd (split_from sep s)) = Some x
                    /\ s = (pre ++ String sep x)%string /\ occurs sep x = false).
Proof.
  induction s as [|c s IH]; [left; repeat split|].
  cbn [split_from occurs]. destruct (split_from sep s) as [seg segs] eqn:E.
  cbn [fst snd] in IH. destruct (Ascii.eqb c sep) eqn:Hc.
  - apply Ascii.eqb_eq in Hc. subst c. right. cbn [fst snd orb].
    destruct IH as [(-> & -> & Ho)|(pre & x & Hl & -> & Ho)].
    + exists "", s. repeat split. exact Ho.
    + exists (String sep pre), x. split; [|split; [reflexivity|exact Ho]].
      destruct segs; [discriminate|]. exact Hl.
  - cbn [fst snd orb]. destruct IH as [(-> & -> & Ho)|(pre & x & Hl & -> & Ho)].
    + left. repeat split. exact Ho.
    + right. exists (String c pre), x. repeat split; assumption.
Qed.

(** X22. The file name shown for a path without ['/'] is the path
    itself; in general it is either the whole path or the non-empty,
    slash-free segment after the last ['/']. *)
Theorem file_name_is_the_last_segment p :
  (occurs "/" p = false -> file_name p = p)
  /\ (file_name p = p
      \/ exists dir, p = (dir ++ String "/" (file_name p))%string
                     /\ occurs "/" (file_name p) = false
                     /\ file_name p <> "").
Proof.
  unfold file_name, pop, split.
  destruct (split_from_last "/" p) as [(Hs & Hf & Ho)|(pre & x & Hl & Hp & Ho)];
    destruct (split_from "/" p) as [seg segs]; cbn [fst snd] in *.
  - subst segs seg. cbn [last]. assert (match or_else (Str p) (Str p) with
                                         | Str n => n | _ => p end = p) as ->.
    { unfold or_else. destruct (truthy (Str p)); reflexivity. }
    split; [reflexivity|left; reflexivity].
  - assert (last (seg :: segs) = Some x) as ->.
    { destruct segs; [discriminate|exact Hl]. }
    unfold or_else. cbn [truthy]. destruct (String.eqb x "") eqn:Hx; cbn [negb].
    + split; [reflexivity|left; reflexivity].
    + apply String.eqb_neq in Hx. split.
      * intros Hno. exfalso. subst p. clear -Hno.
        induction pre as [|c pre IH]; cbn in Hno.
        -- discriminate.
        -- apply orb_false_iff in Hno as [_ Hno]. auto.
      * right. exists pre. repeat split; assumption.
Qed.

End PageCoverage.

Section SyncCoverage.
Local Open Scope list_scope.

(** X26. A local edit is relayed with the page's [currentUserId] to the
    open peers of the session (the members of the group other than the
    sender whose socket is OPEN).  A page drops an [editor-change] that
    carries its own [currentUserId], and every page uses the same one;
    an [editor-change] from another user replaces the content of that
    path only (the last one wins). *)
Theorem pages_ignore_edits_of_the_same_user st ws sid code filePath now :
  is_open st ws = true ->
  vars st ws = (Some sid, Some currentUserId) ->
  sid <> "" ->
  (forall local,
     wire (step st (Message ws (snd (handleCodeChange code filePath true local)) now))
     = wire st ++ map (fun client =>
                         (client, editor_change (Some currentUserId) (Str code) (Str filePath) now))
                      (recipients st (group st sid) (Some ws)))
  /\ (forall remote, onEditorChange (Some currentUserId) (Str code) filePath remote = remote)
  /\ (forall other remote,
        other <> Some currentUserId ->
        onEditorChange other (Str code) filePath remote !! filePath = Some (Str code)
        /\ forall path, path <> filePath ->
             onEditorChange other (Str code) filePath remote !! path = remote !! path)
  /\ (forall s l client,
        client ∈ recipients s l (Some ws)
        <-> client ∈ l /\ client <> ws /\ is_open s client = true).
Proof.
  intros Hopen Hv Hsid. split; [|split; [|split; [|intros s l client; apply recipients_members]]].
  - intros local. cbn [handleCodeChange snd]. rewrite step_Message_open by exact Hopen.
    unfold on_message. rewrite Hv. cbn.
    apply String.eqb_neq in Hsid. rewrite Hsid. apply broadcast_wire.
  - intros remote. unfold onEditorChange. rewrite decide_False by (intros H; apply H; reflexivity).
    reflexivity.
  - intros other remote Hother. unfold onEditorChange. rewrite decide_True by exact Hother.
    split; [apply lookup_insert_eq|]. intros path Hp. apply lookup_insert_ne. congruence.
Qed.

Lemma pages_ignore_edits_of_the_same_user_witness :
  is_open same_user_peers 1 = true
  /\ vars same_user_peers 1 = (Some "s1", Some currentUserId)
  /\ "s1" <> ""
  /\ wire (step same_user_peers
             (Message 1 (snd (handleCodeChange "hello" "a.ts" true ∅)) 5))
     = wire same_user_peers
       ++ [(2%nat, editor_change (Some currentUserId) (Str "hello") (Str "a.ts") 5)].
Proof.
  assert (is_open same_user_peers 1 = true) as H1 by reflexivity.
  assert (vars same_user_peers 1 = (Some "s1", Some currentUserId)) as H2 by reflexivity.
  assert ("s1" <> "") as H3 by discriminate.
  split; [exact H1|]. split; [exact H2|]. split; [exact H3|].
  exact (proj1 (pages_ignore_edits_of_the_same_user same_user_peers 1 "s1" "hello" "a.ts" 5
                  H1 H2 H3) ∅).
Defined.


Lemma numbers_S start k : numbers start (S k) = start :: numbers (start + 1) k.
Proof.
  unfold numbers. cbn [seq map]. f_equal; [lia|].
  rewrite <- seq_shift, map_map. apply map_ext. intros i. lia.
Qed.

Lemma numbers_app start k1 k2 :
  numbers start (k1 + k2) = numbers start k1 ++ numbers (start + Z.of_nat k1) k2.
Proof.
  revert start. induction k1 as [|k1 IH]; intros start.
  - cbn [Nat.add]. unfold numbers at 2. cbn. f_equal. lia.
  - cbn [Nat.add]. rewrite !numbers_S, IH. cbn. do 3 f_equal. lia.
Qed.

Lemma render_lines_numbers isAdded isRemoved lines o n :
  let '(rows, (o', n')) := render_lines isAdded isRemoved lines o n in
  omap oldNum rows = numbers o (length (omap oldNum rows))
  /\ o' = o + Z.of_nat (length (omap oldNum rows))
  /\ omap newNum rows = numbers n (length (omap newNum rows))
  /\ n' = n + Z.of_nat (length (omap newNum rows)).
Proof.
  revert o n. induction lines as [|l lines IH]; intros o n; cbn [render_lines].
  - cbn. repeat split; lia.
  - specialize (IH (if isAdded then o else o + 1) (if isRemoved then n else n + 1)).
    destruct (render_lines isAdded isRemoved lines _ _) as [rows [o' n']].
    destruct IH as (Ho & Ho' & Hn & Hn').
    destruct isAdded, isRemoved; cbn [omap list_omap oldNum newNum length];
      fold (omap oldNum rows); fold (omap newNum rows); rewrite ?numbers_S;
      repeat split; try congruence; lia.
Qed.

Lemma render_from_numbers parts o n :
  omap oldNum (render_from parts o n) = numbers o (length (omap oldNum (render_from parts o n)))
  /\ omap newNum (render_from parts o n) = numbers n (length (omap newNum (render_from parts o n))).
Proof.
  revert o n. induction parts as [|p parts IH]; intros o n; cbn [render_from].
  - split; reflexivity.
  - pose proof (render_lines_numbers (added p) (removed p) (part_lines p) o n) as H.
    destruct (render_lines (added p) (removed p) (part_lines p) o n) as [rows [o' n']].
    destruct H as (Ho & Ho' & Hn & Hn'). destruct (IH o' n') as [IHo IHn].
    rewrite !omap_app, !length_app, !numbers_app. split.
    + rewrite <- Ho, <- Ho'. f_equal. exact IHo.
    + rewrite <- Hn, <- Hn'. f_equal. exact IHn.
Qed.

Lemma render_lines_shapes isAdded isRemoved lines o n :
  map row_shape (fst (render_lines isAdded isRemoved lines o n))
  = map (fun l => (isAdded, isRemoved, shown_text l)) lines.
Proof.
  revert o n. induction lines as [|l lines IH]; intros o n; cbn [render_lines]; [reflexivity|].
  specialize (IH (if isAdded then o else o + 1) (if isRemoved then n else n + 1)).
  destruct (render_lines isAdded isRemoved lines _ _) as [rows [o' n']].
  cbn [fst map] in *. rewrite IH. f_equal.
  destruct isAdded, isRemoved; reflexivity.
Qed.

Lemma render_from_shapes parts o n :
  map row_shape (render_from parts o n) = flat_map part_shapes parts.
Proof.
  revert o n. induction parts as [|p parts IH]; intros o n; cbn [render_from flat_map];
    [reflexivity|].
  pose proof (render_lines_shapes (added p) (removed p) (part_lines p) o n) as H.
  destruct (render_lines (added p) (removed p) (part_lines p) o n) as [rows [o' n']].
  cbn [fst] in H. rewrite map_app, H, IH. reflexivity.
Qed.

(** X27. In the rendered diff the old line numbers shown are 1, 2, 3, ...
    without gap, and so are the new ones.  Row by row, the rows are the
    lines of the parts in order: each row shows the text of its line (a
    space for an empty line), lacks its old number exactly when the
    part it was rendered from is added, and lacks its new number
    exactly when that part is removed. *)
Theorem diff_line_numbers_are_consecutive (parts : list part) :
  omap oldNum (render parts) = numbers 1 (length (omap oldNum (render parts)))
  /\ omap newNum (render parts) = numbers 1 (length (omap newNum (render parts)))
  /\ map row_shape (render parts) = flat_map part_shapes parts.
Proof.
  destruct (render_from_numbers parts 1 1) as [Ho Hn].
  split; [exact Ho|]. split; [exact Hn|].
  apply render_from_shapes.
Qed.

End SyncCoverage.

(* ===================================================================== *)
(** ** Properties of the replay component *)
(* ===================================================================== *)

Section ReplayCoverage.
Local Open Scope list_scope.

(** X23. The replay editor reads [files[0].content]: for a snapshot
    stored in the current object shape (no path "0") it shows
    "// No content"; for one stored as a legacy array it shows the
    content of the first file, or "// No content" when that content is
    falsy. *)
Theorem replay_reads_only_the_legacy_shape (snapshot : value) before after :
  (forall props m,
     get_field_opt snapshot "diff" = diff_to_value (NormalizedDiff (FilesRecord props) m) ->
     own_property props "0" = None ->
     fileContent (before ++ snapshot :: after) (Z.of_nat (length before)) = Str "// No content")
  /\ (forall p c rest m,
        get_field_opt snapshot "diff"
        = diff_to_value (NormalizedDiff (FilesArray (legacy_item (p, c) :: rest)) m) ->
        fileContent (before ++ snapshot :: after) (Z.of_nat (length before))
        = or_else c (Str "// No content")).
Proof.
  assert (at_index (before ++ snapshot :: after) (Z.of_nat (length before)) = snapshot) as Hat.
  { unfold at_index. destruct (Z.ltb_spec (Z.of_nat (length before)) 0) as [H|_]; [lia|].
    rewrite Nat2Z.id, list_lookup_middle by reflexivity. reflexivity. }
  split.
  - intros props m Hd Hnone. unfold fileContent. rewrite Hat, Hd. cbn. rewrite Hnone. reflexivity.
  - intros p c rest m Hd. unfold fileContent. rewrite Hat, Hd. reflexivity.
Qed.

Lemma replay_step_in_range n st ev :
  in_range n st -> offered n ev -> in_range n (replay_step n st ev).
Proof.
  unfold in_range, replay_step. intros H Hev.
  assert (forall r p, handler n ev st = (r, p) -> 0 <= default (currentIndex st) r <= n - 1) as Hr.
  { intros r p. destruct ev; cbn [handler]; unfold handlePlayPause, handlePrevious, handleNext,
      handleSliderChange, interval, effect_stops.
    - destruct (Z.leb_spec (n - 1) (currentIndex st)); intros [= <- <-]; cbn; lia.
    - destruct (Z.ltb_spec 0 (currentIndex st)); intros [= <- <-]; cbn; lia.
    - destruct (Z.ltb_spec (currentIndex st) (n - 1)); intros [= <- <-]; cbn; lia.
    - intros [= <- <-]. cbn in *. lia.
    - destruct (isPlaying st); cbn [negb orb].
      + destruct (Z.leb_spec (n - 1) (currentIndex st)); intros [= <- <-]; cbn; lia.
      + intros [= <- <-]. cbn. lia. }
  destruct (handler n ev st) as [r p]. specialize (Hr r p eq_refl).
  destruct (effect_stops n _); cbn [currentIndex]; exact Hr.
Qed.

(** X24. With a parent that stores the index it is handed, the replay
    index stays between 0 and [snapshots.length - 1] over any sequence
    of play/pause, previous, next, interval ticks and slider values. *)
Theorem replay_index_stays_in_range n (evs : list replay_event) st :
  0 <= currentIndex st <= n - 1 ->
  Forall (offered n) evs ->
  0 <= currentIndex (fold_left (replay_step n) evs st) <= n - 1.
Proof.
  intros H Hevs. revert st H.
  induction Hevs as [|ev evs Hev _ IH]; intros st H; cbn [fold_left]; [exact H|].
  apply IH. apply replay_step_in_range; assumption.
Qed.

Lemma replay_index_stays_in_range_witness :
  0 <= currentIndex (Replay 2 false) <= 3 - 1
  /\ Forall (offered 3) [PlayPause; Tick; Next; Next; Previous; Slider 1; PlayPause; Tick; Tick]
  /\ 0 <= currentIndex
            (fold_left (replay_step 3)
               [PlayPause; Tick; Next; Next; Previous; Slider 1; PlayPause; Tick; Tick]
               (Replay 2 false)) <= 3 - 1.
Proof.
  assert (0 <= currentIndex (Replay 2 false) <= 3 - 1) as H1 by (cbn; lia).
  assert (Forall (offered 3)
            [PlayPause; Tick; Next; Next; Previous; Slider 1; PlayPause; Tick; Tick]) as H2
    by (repeat constructor; cbn; lia).
  split; [exact H1|]. split; [exact H2|].
  exact (replay_index_stays_in_range 3 _ _ H1 H2).
Defined.

Lemma tick_advances n i :
  i < n - 1 ->
  replay_step n (Replay i true) Tick = Replay (i + 1) (negb (Z.leb (n - 1) (i + 1))).
Proof.
  intros H. unfold replay_step, handler, interval, effect_stops. simpl.
  destruct (Z.leb_spec (n - 1) i); [lia|]. simpl.
  destruct (Z.leb (n - 1) (i + 1)); reflexivity.
Qed.

(** X25. Playback started before the last snapshot advances one
    snapshot per tick (each tick before the last snapshot moves to the
    next index and keeps playing unless that is the last) and, on
    reaching the last one, stops; a tick at the last snapshot never
    moves on. *)
Theorem playback_stops_at_the_last_snapshot n (k : nat) i :
  0 <= i ->
  i + Z.of_nat (S k) = n - 1 ->
  fold_left (replay_step n) (repeat Tick (S k)) (Replay i true) = Replay (n - 1) false
  /\ (forall st, currentIndex st = n - 1 -> replay_step n st Tick = Replay (n - 1) false)
  /\ (forall j, j < n - 1 ->
        replay_step n (Replay j true) Tick = Replay (j + 1) (negb (Z.leb (n - 1) (j + 1)))).
Proof.
  intros Hi Hk. split; [|split; [|intros j Hj; apply tick_advances, Hj]].
  - revert i Hi Hk. induction k as [|k IH]; intros i Hi Hk;
      change (repeat Tick (S ?m)) with (Tick :: repeat Tick m); cbn [fold_left];
      rewrite tick_advances by lia.
    + cbn [repeat fold_left]. destruct (Z.leb_spec (n - 1) (i + 1)); [|lia].
      cbn [negb]. f_equal. lia.
    + destruct (Z.leb_spec (n - 1) (i + 1)); [lia|]. cbn [negb]. apply IH; lia.
  - intros [i' p] Hst. cbn in Hst. subst i'.
    unfold replay_step, handler, interval, effect_stops. simpl.
    rewrite Z.leb_refl, orb_true_r. simpl. rewrite Z.leb_refl, orb_true_r. reflexivity.
Qed.

Lemma playback_stops_at_the_last_snapshot_witness :
  0 <= 0
  /\ 0 + Z.of_nat 3 = 4 - 1
  /\ fold_left (replay_step 4) [Tick; Tick; Tick] (Replay 0 true) = Replay 3 false.
Proof.
  assert (0 <= 0) as H1 by lia.
  assert (0 + Z.of_nat 3 = 4 - 1) as H2 by reflexivity.
  split; [exact H1|]. split; [exact H2|].
  exact (proj1 (playback_stops_at_the_last_snapshot 4 2 0 H1 H2)).
Defined.

End ReplayCoverage.
